(** * Layout engine of the Figma live viewer (src/App.js)

    A shallow embedding of the three pieces of [src/App.js] that make up the
    layout engine:

    - [collectNodesWithBBox]  (lines 5-9),   the bounding-box collector;
    - [FigmaNode]             (lines 11-49), the layout projector, with the
      fill and text-style expressions of lines 20-22 and 36-37;
    - the envelope [useMemo]  (lines 92-119), the envelope and scale
      calculator.

    Numbers.  JavaScript numbers are modelled as exact rationals [Q], and an
    equation between computed numbers is stated with [==]; rounding error,
    NaN and the infinities are not modelled.

    Optional fields.  A property that may be missing on the JSON object is an
    [option].  Reading a property of a missing object is a [TypeError], the
    only exception the engine can raise.  A bounding box, when present, has
    its [x] and [y] (lines 97-100 read them as they are); its [width] and
    [height] may be missing (the source reads them through [|| 0]).  A paint
    may lack its [color]; a colour has its four channels. *)

From Stdlib Require Import QArith Qminmax Qround Lqa ZArith NArith Lia List
  String Ascii Bool.
Import ListNotations.
Open Scope string_scope.
Open Scope list_scope.
Open Scope Q_scope.

Set Warnings "-register-all".

(** ** Exceptions *)

Inductive result (A : Type) : Type :=
| Ok (a : A)
| TypeError.
Arguments Ok {A} a.
Arguments TypeError {A}.

Definition bind {A B : Type} (m : result A) (k : A -> result B) : result B :=
  match m with
  | Ok a => k a
  | TypeError => TypeError
  end.

Notation "x <- m ;; k" := (bind m (fun x => k))
  (at level 61, m at next level, right associativity).

(** [xs.map(f)] where [f] may throw: the first exception aborts the map. *)
Fixpoint mapM {A B : Type} (f : A -> result B) (l : list A) : result (list B) :=
  match l with
  | [] => Ok []
  | a :: t => b <- f a ;; bs <- mapM f t ;; Ok (b :: bs)
  end.

(** ** The document tree *)

Record BoundingBox : Type := mkBox {
  box_x : Q;
  box_y : Q;
  box_width : option Q;
  box_height : option Q
}.

Record Color : Type := mkColor {
  color_r : Q;
  color_g : Q;
  color_b : Q;
  color_a : Q
}.

(** One entry of [fills]: the [type] tag and the [color], which only a
    solid paint has. *)
Record Paint : Type := mkPaint {
  paint_type : string;
  paint_color : option Color
}.

Record TextStyle : Type := mkStyle {
  fontFamily : option string;
  fontSize : option Q
}.

Inductive Node : Type := mkNode {
  id : string;
  type : string;
  absoluteBoundingBox : option BoundingBox;
  fills : option (list Paint);
  characters : option string;
  style : option TextStyle;
  children : option (list Node)
}.

Definition set_children (n : Node) (cs : option (list Node)) : Node :=
  mkNode (id n) (type n) (absoluteBoundingBox n) (fills n) (characters n)
         (style n) cs.

Definition set_type (n : Node) (t : string) : Node :=
  mkNode (id n) t (absoluteBoundingBox n) (fills n) (characters n)
         (style n) (children n).

(** [node.children] read as a list: a missing array has no element. *)
Definition child_list (n : Node) : list Node :=
  match children n with
  | Some cs => cs
  | None => []
  end.

(** Induction over the tree, with the children under [Forall]. *)
Section NodeInduction.
Variable P : Node -> Prop.
Hypothesis step :
  forall n, Forall P (child_list n) -> P n.

Fixpoint Node_tree_ind (n : Node) : P n :=
  step n
    (match n as m return Forall P (child_list m) with
     | mkNode _ _ _ _ _ _ cs =>
       match cs as o
             return Forall P (match o with Some l => l | None => [] end) with
       | None => Forall_nil P
       | Some l =>
         (fix all (l : list Node) : Forall P l :=
            match l with
            | [] => Forall_nil P
            | c :: t => Forall_cons c (Node_tree_ind c) (all t)
            end) l
       end
     end).
End NodeInduction.

(** ** Bounding-box collector (App.js, lines 5-9)

<<
function collectNodesWithBBox(node, arr = []) {
  if (node.absoluteBoundingBox) arr.push(node);
  if (node.children) node.children.forEach(child => collectNodesWithBBox(child, arr));
  return arr;
}
>>
    The array [arr] is shared by all the recursive calls; it is threaded
    through them as an accumulator. *)

Definition has_box (n : Node) : bool :=
  match absoluteBoundingBox n with
  | Some _ => true
  | None => false
  end.

Fixpoint collectNodesWithBBox (node : Node) (arr : list Node) : list Node :=
  let arr1 := if has_box node then arr ++ [node] else arr in
  match children node with
  | Some cs => fold_left (fun acc child => collectNodesWithBBox child acc) cs arr1
  | None => arr1
  end.

(** The call with the default argument [arr = []]. *)
Definition collectBoxed (root : Node) : list Node :=
  collectNodesWithBBox root [].

(** The pre-order, depth-first listing of every node of a tree, children in
    their stored order: the order of visit the specification names. *)
Fixpoint preorder (n : Node) : list Node :=
  n :: match children n with
       | Some cs => flat_map preorder cs
       | None => []
       end.

(** ** JavaScript operators on numbers and strings *)

(** [v || d] on a number: [0] is falsy. *)
Definition num_or (v d : Q) : Q :=
  if Qeq_bool v 0 then d else v.

(** [v || d] on a number that may be [undefined]. *)
Definition opt_num_or (v : option Q) (d : Q) : Q :=
  match v with
  | Some q => num_or q d
  | None => d
  end.

(** [v || d] on a string that may be [undefined]: the empty string is
    falsy. *)
Definition opt_str_or (v : option string) (d : string) : string :=
  match v with
  | Some "" => d
  | Some s => s
  | None => d
  end.

(** [a > b]. *)
Definition Qgtb (a b : Q) : bool := negb (Qle_bool a b).

(** [Math.round]: the nearest integer, a tie going up. *)
Definition Math_round (v : Q) : Z := Qfloor (v + (1 # 2)).

(** [Math.min(...[x, ...xs])] and [Math.max(...[x, ...xs])] of an array
    with at least one element. *)
Definition Math_min (x : Q) (xs : list Q) : Q := fold_left Qmin xs x.
Definition Math_max (x : Q) (xs : list Q) : Q := fold_left Qmax xs x.

(** ** Style resolver (App.js, lines 20-22 and 36-37) *)

Inductive Background : Type :=
| Transparent
| Rgba (r g b : Z) (a : Q).

(** Lines 20-22:
<<
node.fills && node.fills[0] && node.fills[0].type === 'SOLID'
  ? `rgba(${Math.round(node.fills[0].color.r * 255)},...,${node.fills[0].color.a})`
  : 'transparent'
>>
    Only [fills[0]] is read.  Once the entry is tagged ['SOLID'] its [color]
    is dereferenced without a test. *)
Definition resolveFill (fills : option (list Paint)) : result Background :=
  match fills with
  | None => Ok Transparent
  | Some [] => Ok Transparent
  | Some (first :: _) =>
    if String.eqb (paint_type first) "SOLID" then
      match paint_color first with
      | Some c =>
        Ok (Rgba (Math_round (color_r c * 255))
                 (Math_round (color_g c * 255))
                 (Math_round (color_b c * 255))
                 (color_a c))
      | None => TypeError
      end
    else Ok Transparent
  end.

(** Lines 36-37, before the multiplication by [scale]:
    [node.style?.fontFamily || 'sans-serif'] and
    [node.style?.fontSize || 16]. *)
Definition style_fontFamily (st : option TextStyle) : option string :=
  match st with
  | Some s => fontFamily s
  | None => None
  end.

Definition style_fontSize (st : option TextStyle) : option Q :=
  match st with
  | Some s => fontSize s
  | None => None
  end.

Definition resolveTextStyle (st : option TextStyle) : string * Q :=
  (opt_str_or (style_fontFamily st) "sans-serif",
   opt_num_or (style_fontSize st) 16).

(** ** Envelope and scale calculator (App.js, lines 92-119) *)

Record Point : Type := mkPoint {
  pt_x : Q;
  pt_y : Q
}.

Record Envelope : Type := mkEnvelope {
  offset : Point;
  scale : Q;
  viewWidth : Q;
  viewHeight : Q
}.

(** [n.absoluteBoundingBox], about to be dereferenced. *)
Definition boxOf (n : Node) : result BoundingBox :=
  match absoluteBoundingBox n with
  | Some b => Ok b
  | None => TypeError
  end.

(** The right and bottom edges, [x + (width || 0)] and [y + (height || 0)]. *)
Definition box_right (b : BoundingBox) : Q := box_x b + opt_num_or (box_width b) 0.
Definition box_bottom (b : BoundingBox) : Q := box_y b + opt_num_or (box_height b) 0.

(** Lines 97-103, over the boxes of a non-empty [nodes] array. *)
Definition minX (b0 : BoundingBox) (bs : list BoundingBox) : Q :=
  Math_min (box_x b0) (map box_x bs).
Definition minY (b0 : BoundingBox) (bs : list BoundingBox) : Q :=
  Math_min (box_y b0) (map box_y bs).
Definition maxX (b0 : BoundingBox) (bs : list BoundingBox) : Q :=
  Math_max (box_right b0) (map box_right bs).
Definition maxY (b0 : BoundingBox) (bs : list BoundingBox) : Q :=
  Math_max (box_bottom b0) (map box_bottom bs).

Definition pageWidth (b0 : BoundingBox) (bs : list BoundingBox) : Q :=
  num_or (maxX b0 bs - minX b0 bs) 1.
Definition pageHeight (b0 : BoundingBox) (bs : list BoundingBox) : Q :=
  num_or (maxY b0 bs - minY b0 bs) 1.

Section Viewport.
(** The source fixes [targetViewWidth = 900] and [targetViewHeight = 600];
    the calculator is written over the two constants, and [App_envelope]
    below is the instance the application runs. *)
Variables targetViewWidth targetViewHeight : Q.

(** Lines 93 and 95. *)
Definition emptyEnvelope : Envelope :=
  mkEnvelope (mkPoint 0 0) 1 targetViewWidth targetViewHeight.

(** Lines 108-111. *)
Definition newScale (pw ph : Q) : Q :=
  if Qgtb pw targetViewWidth || Qgtb ph targetViewHeight then
    Qmin (targetViewWidth / pw) (targetViewHeight / ph)
  else 1.

(** Lines 97-118. *)
Definition fitEnvelope (b0 : BoundingBox) (bs : list BoundingBox) : Envelope :=
  mkEnvelope (mkPoint (minX b0 bs) (minY b0 bs))
             (newScale (pageWidth b0 bs) (pageHeight b0 bs))
             targetViewWidth targetViewHeight.

Definition computeEnvelope (selectedPage : option Node) : result Envelope :=
  match selectedPage with
  | None => Ok emptyEnvelope
  | Some page =>
    match collectBoxed page with
    | [] => Ok emptyEnvelope
    | n0 :: rest =>
      b0 <- boxOf n0 ;;
      bs <- mapM boxOf rest ;;
      Ok (fitEnvelope b0 bs)
    end
  end.
End Viewport.

Definition App_envelope (selectedPage : option Node) : result Envelope :=
  computeEnvelope 900 600 selectedPage.

(** ** Layout projector (App.js, lines 11-49) *)

Inductive VisualPrimitive : Type :=
| Rect (left top width height : Q) (background : Background)
| TextBlock (left top width height : Q) (color : string)
            (font_size : Q) (font_family : string) (text : option string).

(** [node.absoluteBoundingBox?.x] and the three other optional reads. *)
Definition bbox_x (n : Node) : option Q := option_map box_x (absoluteBoundingBox n).
Definition bbox_y (n : Node) : option Q := option_map box_y (absoluteBoundingBox n).
Definition bbox_width (n : Node) : option Q :=
  match absoluteBoundingBox n with
  | Some b => box_width b
  | None => None
  end.
Definition bbox_height (n : Node) : option Q :=
  match absoluteBoundingBox n with
  | Some b => box_height b
  | None => None
  end.

(** Lines 16-19 and 31-34: the four entries [left], [top], [width] and
    [height] of the style object. *)
Definition style_left (n : Node) (off : Point) (sc : Q) : Q :=
  (opt_num_or (bbox_x n) 0 - pt_x off) * sc.
Definition style_top (n : Node) (off : Point) (sc : Q) : Q :=
  (opt_num_or (bbox_y n) 0 - pt_y off) * sc.
Definition style_width (n : Node) (sc : Q) : Q :=
  opt_num_or (bbox_width n) 0 * sc.
Definition style_height (n : Node) (sc : Q) : Q :=
  opt_num_or (bbox_height n) 0 * sc.

(** The RECTANGLE branch, lines 13-27. *)
Definition rectangleDiv (n : Node) (off : Point) (sc : Q) : result VisualPrimitive :=
  background <- resolveFill (fills n) ;;
  Ok (Rect (style_left n off sc) (style_top n off sc)
           (style_width n sc) (style_height n sc) background).

(** The TEXT branch, lines 28-43. *)
Definition textDiv (n : Node) (off : Point) (sc : Q) : VisualPrimitive :=
  TextBlock (style_left n off sc) (style_top n off sc)
            (style_width n sc) (style_height n sc)
            "#222"
            (snd (resolveTextStyle (style n)) * sc)
            (fst (resolveTextStyle (style n)))
            (characters n).

(** The elements of an array of rendered children, in order; an exception
    in one child aborts the rendering. *)
Fixpoint flatten {A : Type} (l : list (result (list A))) : result (list A) :=
  match l with
  | [] => Ok []
  | r :: t => ps <- r ;; qs <- flatten t ;; Ok (ps ++ qs)
  end.

Fixpoint FigmaNode (node : Node) (off : Point) (sc : Q)
  : result (list VisualPrimitive) :=
  if String.eqb (type node) "RECTANGLE" then
    p <- rectangleDiv node off sc ;; Ok [p]
  else if String.eqb (type node) "TEXT" then
    Ok [textDiv node off sc]
  else
    match children node with
    | Some cs => flatten (map (fun child => FigmaNode child off sc) cs)
    | None => Ok []
    end.

Definition project (node : Node) (env : Envelope) : result (list VisualPrimitive) :=
  FigmaNode node (offset env) (scale env).

(** Lines 227-229: the render area maps [FigmaNode] over the children of the
    selected page. *)
Definition renderArea (selectedPage : option Node) (env : Envelope)
  : result (list VisualPrimitive) :=
  match selectedPage with
  | None => Ok []
  | Some page =>
    match children page with
    | Some cs => flatten (map (fun n => project n env) cs)
    | None => Ok []
    end
  end.

(** [FigmaNode] with every primitive paired with the node it is rendered
    from; [FigmaNode_sources_erase] shows that dropping the nodes gives back
    [FigmaNode]. *)
Fixpoint FigmaNode_sources (node : Node) (off : Point) (sc : Q)
  : result (list (Node * VisualPrimitive)) :=
  if String.eqb (type node) "RECTANGLE" then
    p <- rectangleDiv node off sc ;; Ok [(node, p)]
  else if String.eqb (type node) "TEXT" then
    Ok [(node, textDiv node off sc)]
  else
    match children node with
    | Some cs => flatten (map (fun child => FigmaNode_sources child off sc) cs)
    | None => Ok []
    end.

(** The nodes [FigmaNode] is called on: the node itself and, unless it is a
    RECTANGLE or a TEXT, the nodes reached from its children. *)
Fixpoint visited (node : Node) : list Node :=
  node ::
  (if String.eqb (type node) "RECTANGLE" then []
   else if String.eqb (type node) "TEXT" then []
   else match children node with
        | Some cs => flat_map visited cs
        | None => []
        end).

(** A RECTANGLE whose first fill is tagged ['SOLID'] and has no [color]. *)
Definition fill_broken (n : Node) : bool :=
  String.eqb (type n) "RECTANGLE" &&
  match fills n with
  | Some (first :: _) =>
    String.eqb (paint_type first) "SOLID" &&
    match paint_color first with Some _ => false | None => true end
  | _ => false
  end.

(** ** Definitions used to state the properties *)

Definition result_map {A B : Type} (f : A -> B) (r : result A) : result B :=
  match r with
  | Ok a => Ok (f a)
  | TypeError => TypeError
  end.

(** The boxes of a list of nodes, in order. *)
Definition boxes_of (l : list Node) : list BoundingBox :=
  flat_map (fun n => match absoluteBoundingBox n with
                     | Some b => [b]
                     | None => []
                     end) l.

(** The boxes the envelope is computed from. *)
Definition page_boxes (root : Node) : list BoundingBox :=
  boxes_of (collectBoxed root).

Definition opt_nonneg (v : option Q) : bool :=
  match v with
  | Some q => Qle_bool 0 q
  | None => true
  end.

Definition box_nonneg (b : BoundingBox) : bool :=
  opt_nonneg (box_width b) && opt_nonneg (box_height b).

(** Every boxed node of the tree has a width and a height that are absent or
    not negative. *)
Definition sizes_nonneg (root : Node) : bool :=
  forallb (fun n => match absoluteBoundingBox n with
                    | Some b => box_nonneg b
                    | None => true
                    end) (preorder root).

(** The value of a box field as the specification reads it: 0 when the box
    or the field is absent. *)
Definition field_or_zero (v : option Q) : Q :=
  match v with
  | Some q => q
  | None => 0
  end.

(** A type tag that is neither of the two [FigmaNode] handles: FRAME, GROUP
    and every unknown tag. *)
Definition other_tag (t : string) : Prop := t <> "RECTANGLE" /\ t <> "TEXT".

Definition fill_sound (n : Node) : bool := negb (fill_broken n).

Definition prim_left (p : VisualPrimitive) : Q :=
  match p with
  | Rect l _ _ _ _ => l
  | TextBlock l _ _ _ _ _ _ _ => l
  end.

Definition prim_top (p : VisualPrimitive) : Q :=
  match p with
  | Rect _ t _ _ _ => t
  | TextBlock _ t _ _ _ _ _ _ => t
  end.

(** ** Sample documents *)

Definition solid (r g b a : Q) : Paint := mkPaint "SOLID" (Some (mkColor r g b a)).

Definition leaf (i ty : string) (bb : option BoundingBox)
           (fl : option (list Paint)) : Node :=
  mkNode i ty bb fl None None None.

Definition group (i ty : string) (bb : option BoundingBox) (cs : list Node) : Node :=
  mkNode i ty bb None None None (Some cs).

(** The rectangle of the specification's example: box (10, 20, 100, 50), one
    solid fill, red at half opacity. *)
Definition red_rect : Node :=
  leaf "1:2" "RECTANGLE" (Some (mkBox 10 20 (Some 100) (Some 50)))
       (Some [solid 1 0 0 (1 # 2)]).

Definition title_text : Node :=
  mkNode "1:3" "TEXT" (Some (mkBox 40 30 (Some 200) (Some 24))) None
         (Some "Hello") (Some (mkStyle (Some "Inter") (Some 12))) None.

Definition two_children : list Node := [red_rect; title_text].

Definition wide_frame : Node :=
  group "1:1" "FRAME" (Some (mkBox 10 20 (Some 1800) (Some 600))) two_children.

(** A page twice as wide as the viewport: its frame is 1800 by 600. *)
Definition wide_page : Node := group "0:1" "CANVAS" None [wide_frame].

(** A page with no geometry at all. *)
Definition bare_page : Node :=
  group "0:2" "CANVAS" None [group "2:1" "GROUP" None []; leaf "2:2" "SLICE" None None].

(** A page whose only box is half a unit wide and high. *)
Definition tiny_box : BoundingBox := mkBox 5 5 (Some (1 # 2)) (Some (1 # 2)).
Definition tiny_page : Node :=
  group "0:3" "CANVAS" None [leaf "3:1" "RECTANGLE" (Some tiny_box) None].

(** A page whose extent is exactly the 900 by 600 viewport. *)
Definition exact_page : Node :=
  group "0:4" "CANVAS" None
        [leaf "4:1" "RECTANGLE" (Some (mkBox 0 0 (Some 900) (Some 600))) None].

(** A rectangle whose single fill is tagged SOLID and has no colour, and a
    frame that holds it next to a sound one. *)
Definition hollow_rect : Node :=
  leaf "5:1" "RECTANGLE" (Some (mkBox 0 0 (Some 10) (Some 10)))
       (Some [mkPaint "SOLID" None]).

Definition hollow_frame : Node :=
  group "5:0" "FRAME" None [red_rect; hollow_rect].

(** * The rest of the application *)

(** ** More definitions on the layout engine *)



(** The two tags [FigmaNode] renders. *)
Definition leaf_tag (n : Node) : bool :=
  String.eqb (type n) "RECTANGLE" || String.eqb (type n) "TEXT".



(** The scale of the first version of the viewer (lines 89-93 of its
    [useMemo]): [Math.min(viewWidth / pageWidth, viewHeight / pageHeight, 1)]. *)
Definition legacyScale (viewWidth viewHeight pw ph : Q) : Q :=
  Qmin (Qmin (viewWidth / pw) (viewHeight / ph)) 1.

(** ** Page selection (App.js, lines 83-90) *)

(** The message of the socket, as far as the page list reads it:
    [figmaData?.document?.children || []]. *)
Record FigmaFile : Type := mkFile {
  document : option Node
}.

Definition pages (figmaData : option FigmaFile) : list Node :=
  match figmaData with
  | Some f =>
    match document f with
    | Some d => child_list d
    | None => []
    end
  | None => []
  end.

(** Line 84: [pages.find(p => p.id === selectedPageId) || pages[0]].  The
    identifier is [null] until a page is chosen. *)
Definition selectedPage (ps : list Node) (selectedPageId : option string)
  : option Node :=
  match match selectedPageId with
        | Some s => find (fun p => String.eqb (id p) s) ps
        | None => None
        end with
  | Some p => Some p
  | None => hd_error ps
  end.

(** [!selectedPageId]: [null] and the empty string are falsy. *)
Definition no_selection (selectedPageId : option string) : bool :=
  match selectedPageId with
  | None => true
  | Some "" => true
  | Some _ => false
  end.

(** Lines 86-90, the effect that picks the first page:
    [if (pages.length && !selectedPageId) setSelectedPageId(pages[0].id)]. *)
Definition selectFirstPage (ps : list Node) (selectedPageId : option string)
  : option string :=
  match ps with
  | p0 :: _ => if no_selection selectedPageId then Some (id p0) else selectedPageId
  | [] => selectedPageId
  end.

(** ** Strings of the generation and download handlers

    The file-name pattern works on UTF-16 code units, so these strings are
    lists of code units. *)

Definition jsstring : Type := list N.

Definition lit (s : string) : jsstring :=
  map N_of_ascii (list_ascii_of_string s).

(** [s.startsWith(p)]. *)
Fixpoint startsWith (s p : jsstring) : bool :=
  match p with
  | [] => true
  | c :: p' =>
    match s with
    | [] => false
    | d :: s' => N.eqb d c && startsWith s' p'
    end
  end.

(** [s || d] on a string that may be [undefined]. *)
Definition jsstr_or (s : option jsstring) (d : jsstring) : jsstring :=
  match s with
  | Some (c :: t) => c :: t
  | _ => d
  end.

Definition in_range (lo hi c : N) : bool := (lo <=? c)%N && (c <=? hi)%N.

(** A code unit the class [[a-z0-9_\-\.]] matches under the flag [i]: a
    letter of either case, a digit, [_], [-] or [.].  Without the flag [u]
    no code unit above 127 is folded onto a letter. *)
Definition safe_unit (c : N) : bool :=
  in_range 97 122 c || in_range 65 90 c || in_range 48 57 c
  || (c =? 95)%N || (c =? 45)%N || (c =? 46)%N.

(** [name.replace(/[^a-z0-9_\-\.]/gi, '_')]. *)
Definition replace_unsafe (name : jsstring) : jsstring :=
  map (fun c => if safe_unit c then c else 95%N) name.

(** Lines 172-173 of [handleDownloadHtml]:
    [selectedPage?.name?.replace(...) || 'generated-page'], then
    [`${safePageName}.html`]. *)
Definition safePageName (name : option jsstring) : jsstring :=
  jsstr_or (option_map replace_unsafe name) (lit "generated-page").

Definition downloadFilename (name : option jsstring) : jsstring :=
  safePageName name ++ lit ".html".

(** ** The generation handler (App.js, lines 121-164) *)

Definition quote : N := 34%N.

(** The prefix of the error placeholder: a paragraph tag opened with a red
    style attribute, up to the semicolon; [quote] is the double quote. *)
Definition redPrefix : jsstring :=
  lit "<p style=" ++ [quote] ++ lit "color: red;".

Definition errorHtml : jsstring :=
  redPrefix ++ [quote]
  ++ lit ">Error fetching or processing HTML from backend.</p>".

Definition notProvidedPrefix : jsstring :=
  lit "<p>HTML content was not provided".

Definition notProvidedHtml : jsstring :=
  lit "<p>HTML content was not provided by the server.</p>".

(** The four pieces of state the handler writes. *)
Record ViewState : Type := mkView {
  generatedHtml : jsstring;
  serverMessage : option jsstring;
  error : option jsstring;
  isGenerating : bool
}.

Record ResultJson : Type := mkJson {
  details : option jsstring;
  message : option jsstring;
  htmlContent : option jsstring
}.

(** What the network does to one request: [fetch] or [response.json()]
    throws an error with a message, or a response arrives with its [ok]
    flag, its status in decimal and its parsed body. *)
Inductive Exchange : Type :=
| Thrown (msg : jsstring)
| Responded (ok : bool) (status : jsstring) (body : ResultJson).

(** The [catch] block, lines 156-161. *)
Definition generationFailed (msg : jsstring) : ViewState :=
  mkView errorHtml (Some []) (Some (lit "Failed to generate HTML: " ++ msg)) false.

(** The state once the handler has run to its end. *)
Definition handleGenerateHtml (pageSelected : bool) (x : Exchange)
           (st : ViewState) : ViewState :=
  if negb pageSelected then st
  else
    match x with
    | Thrown msg => generationFailed msg
    | Responded ok status body =>
      if negb ok then
        generationFailed
          (jsstr_or (details body) (lit "Server responded with " ++ status))
      else
        mkView (match htmlContent body with
                | Some (c :: t) => c :: t
                | _ => notProvidedHtml
                end)
               (message body) None false
    end.

(** The exchanges that end in the [catch] block: an exception, or a
    response whose [ok] flag is off. *)
Definition exchange_failed (x : Exchange) : bool :=
  match x with
  | Thrown _ => true
  | Responded ok _ _ => negb ok
  end.

(** ** The download handler (App.js, lines 166-183) *)

Inductive DownloadAction : Type :=
| AlertNoContent
| SaveFile (filename content : jsstring).

Definition is_empty (s : jsstring) : bool :=
  match s with
  | [] => true
  | _ => false
  end.

Definition handleDownloadHtml (st : ViewState) (pageName : option jsstring)
  : DownloadAction :=
  if is_empty (generatedHtml st)
     || startsWith (generatedHtml st) redPrefix
     || startsWith (generatedHtml st) notProvidedPrefix
  then AlertNoContent
  else SaveFile (downloadFilename pageName) (generatedHtml st).

(** Lines 238-246: the download button is drawn inside the preview, which is
    itself drawn when [generatedHtml] is not empty. *)
Definition downloadButtonShown (st : ViewState) : bool :=
  negb (is_empty (generatedHtml st))
  && (negb (is_empty (generatedHtml st))
      && negb (startsWith (generatedHtml st) redPrefix)
      && negb (startsWith (generatedHtml st) notProvidedPrefix)).

(** ** The generation route of the server (POST /api/generate-html) *)

Record PageData : Type := mkPage {
  page_name : option jsstring;
  page_id : option jsstring
}.

Definition truthy (s : option jsstring) : bool :=
  match s with
  | Some (_ :: _) => true
  | _ => false
  end.

(** The two guards of the route and, past them, the name of the file the
    generated markup is written to: [`${safePageName}.html`] with
    [safePageName = figmaPageData.name.replace(/[^a-z0-9_\-\.]/gi, '_')].
    [Status400] and [Status500] are the answers of the two guards; the call
    of the model and the write of the file come after this step. *)
Inductive RouteStep : Type :=
| Status400
| Status500
| Generate (filename : jsstring).

Definition generateHtmlRoute (body : option PageData) (genAI : bool) : RouteStep :=
  match body with
  | None => Status400
  | Some page =>
    if negb (truthy (page_name page)) || negb (truthy (page_id page)) then Status400
    else if negb genAI then Status500
    else
      match page_name page with
      | Some name => Generate (replace_unsafe name ++ lit ".html")
      | None => Status400
      end
  end.

(** * Properties *)

(** ** The collector *)

Lemma fold_collect_app (cs : list Node) :
  Forall (fun c => forall arr,
            collectNodesWithBBox c arr = arr ++ filter has_box (preorder c)) cs ->
  forall arr,
    fold_left (fun acc child => collectNodesWithBBox child acc) cs arr
    = arr ++ filter has_box (flat_map preorder cs).
Proof.
  induction 1 as [|c cs Hc _ IH]; intro arr; simpl.
  - now rewrite app_nil_r.
  - rewrite Hc, IH, filter_app, app_assoc. reflexivity.
Qed.

Lemma collect_preorder (n : Node) :
  forall arr, collectNodesWithBBox n arr = arr ++ filter has_box (preorder n).
Proof.
  induction n as [n IH] using Node_tree_ind. intro arr.
  destruct n as [i t bb fl ch st cs]; unfold child_list in IH; simpl in *.
  unfold has_box at 1 3; simpl.
  destruct cs as [cs|].
  - rewrite (fold_collect_app cs IH).
    destruct bb; simpl; [rewrite <- app_assoc|]; reflexivity.
  - destruct bb; simpl; [reflexivity | now rewrite app_nil_r].
Qed.

Lemma collectBoxed_filter (root : Node) :
  collectBoxed root = filter has_box (preorder root).
Proof. unfold collectBoxed. now rewrite collect_preorder. Qed.

Lemma preorder_root (n : Node) : In n (preorder n).
Proof. destruct n; simpl; auto. Qed.

Lemma preorder_child (n c : Node) :
  In c (child_list n) -> incl (preorder c) (preorder n).
Proof.
  destruct n as [i t bb fl ch st cs]; unfold child_list; simpl.
  destruct cs as [cs|]; [|contradiction].
  intros Hc m Hm. right. apply in_flat_map. eauto.
Qed.

Lemma preorder_trans (root : Node) :
  forall n, In n (preorder root) -> incl (preorder n) (preorder root).
Proof.
  induction root as [root IH] using Node_tree_ind.
  intros n Hn.
  destruct root as [i t bb fl ch st cs]; unfold child_list in IH; simpl in *.
  destruct Hn as [<-|Hn]; [apply incl_refl|].
  destruct cs as [cs|]; [|contradiction].
  apply in_flat_map in Hn as (c & Hc & Hn).
  rewrite Forall_forall in IH.
  intros m Hm. right. apply in_flat_map. exists c. split; [assumption|].
  exact (IH c Hc n Hn m Hm).
Qed.

(** C2.  [collectBoxed] returns the nodes of the tree that carry a bounding
    box, and only those, in the order of the pre-order depth-first walk with
    the children in their stored order, each occurrence once: it is the
    pre-order listing filtered by "has a box".  The listing starts at the
    root and is closed under children, so every reachable node is in it.  The
    result is empty exactly when no node of the tree, root included, carries
    a box. *)
Theorem collectBoxed_preorder_boxed (root : Node) :
  collectBoxed root = filter has_box (preorder root)
  /\ In root (preorder root)
  /\ (forall n c, In n (preorder root) -> In c (child_list n) ->
                  In c (preorder root))
  /\ (forall n, In n (collectBoxed root) <->
                In n (preorder root) /\ absoluteBoundingBox n <> None)
  /\ (List.length (collectBoxed root) = 0%nat <->
      forall n, In n (preorder root) -> absoluteBoundingBox n = None).
Proof.
  split; [apply collectBoxed_filter|].
  split; [apply preorder_root|].
  split.
  { intros n c Hn Hc. apply (preorder_trans root n Hn).
    apply (preorder_child n c Hc), preorder_root. }
  rewrite collectBoxed_filter. split.
  - intro n. rewrite filter_In. unfold has_box.
    destruct (absoluteBoundingBox n); intuition congruence.
  - rewrite length_zero_iff_nil. split.
    + intros Hnil n Hn.
      destruct (absoluteBoundingBox n) eqn:E; [|reflexivity].
      assert (Hin : In n (filter has_box (preorder root))).
      { apply filter_In. split; [assumption|]. unfold has_box. now rewrite E. }
      rewrite Hnil in Hin. contradiction.
    + intro Hall.
      induction (preorder root) as [|m l IHl]; [reflexivity|]. simpl.
      unfold has_box at 1. rewrite (Hall m (or_introl eq_refl)).
      apply IHl. intros n Hn. apply Hall. now right.
Qed.

(** ** Arithmetic of the JavaScript operators *)

Lemma num_or_zero (v : Q) : num_or v 0 == v.
Proof.
  unfold num_or. destruct (Qeq_bool v 0) eqn:E; [|reflexivity].
  apply Qeq_bool_iff in E. now rewrite E.
Qed.

Lemma opt_num_or_nonneg (v : option Q) :
  (forall q, v = Some q -> 0 <= q) -> 0 <= opt_num_or v 0.
Proof.
  destruct v as [q|]; simpl; intro H; [|apply Qle_refl].
  rewrite num_or_zero. now apply H.
Qed.

Lemma num_or_cases (v d : Q) :
  (v == 0 /\ num_or v d = d) \/ (~ v == 0 /\ num_or v d = v).
Proof.
  unfold num_or. destruct (Qeq_bool v 0) eqn:E.
  - left. split; [now apply Qeq_bool_iff|reflexivity].
  - right. split; [now apply Qeq_bool_neq|reflexivity].
Qed.

Lemma num_or_one_pos (v : Q) : 0 <= v -> 0 < num_or v 1.
Proof.
  intro Hv. destruct (num_or_cases v 1) as [[_ ->]|[Hne ->]]; [reflexivity|].
  apply Qle_lteq in Hv as [Hlt|Heq]; [assumption|].
  exfalso. apply Hne. now symmetry.
Qed.

Lemma Qgtb_true (a b : Q) : Qgtb a b = true <-> b < a.
Proof.
  unfold Qgtb. rewrite negb_true_iff. split.
  - intro E. apply Qnot_le_lt. intro Hle.
    apply Qle_bool_iff in Hle. congruence.
  - intro Hlt. destruct (Qle_bool a b) eqn:E; [|reflexivity].
    apply Qle_bool_iff in E. exfalso. exact (Qlt_not_le _ _ Hlt E).
Qed.

Lemma Qgtb_false (a b : Q) : Qgtb a b = false <-> a <= b.
Proof.
  unfold Qgtb. rewrite negb_false_iff. apply Qle_bool_iff.
Qed.

Lemma Math_min_le_head (xs : list Q) : forall x, Math_min x xs <= x.
Proof.
  unfold Math_min. induction xs as [|a t IH]; intro x; simpl.
  - apply Qle_refl.
  - eapply Qle_trans; [apply IH | apply Q.le_min_l].
Qed.

Lemma Math_min_le (xs : list Q) :
  forall x v, In v (x :: xs) -> Math_min x xs <= v.
Proof.
  unfold Math_min. induction xs as [|a t IH]; intros x v Hv; simpl in *.
  - destruct Hv as [<-|[]]. apply Qle_refl.
  - destruct Hv as [<-|[<-|Hv]].
    + eapply Qle_trans; [apply (Math_min_le_head t) | apply Q.le_min_l].
    + eapply Qle_trans; [apply (Math_min_le_head t) | apply Q.le_min_r].
    + apply IH. now right.
Qed.

Lemma Math_max_ge_head (xs : list Q) : forall x, x <= Math_max x xs.
Proof.
  unfold Math_max. induction xs as [|a t IH]; intro x; simpl.
  - apply Qle_refl.
  - eapply Qle_trans; [apply Q.le_max_l | apply IH].
Qed.

(** ** The envelope *)

Lemma mapM_boxOf (l : list Node) :
  forallb has_box l = true -> mapM boxOf l = Ok (boxes_of l).
Proof.
  induction l as [|n t IH]; simpl; [reflexivity|].
  rewrite andb_true_iff. intros [Hn Ht].
  unfold has_box in Hn. unfold boxOf at 1.
  destruct (absoluteBoundingBox n); [|discriminate].
  simpl. now rewrite (IH Ht).
Qed.

Lemma collectBoxed_has_box (root : Node) :
  forallb has_box (collectBoxed root) = true.
Proof.
  rewrite collectBoxed_filter. apply forallb_forall.
  intros n Hn. now apply filter_In in Hn.
Qed.

(** The calculator never dereferences a missing box: it returns the empty
    envelope or the fitted one. *)
Lemma computeEnvelope_page (W H : Q) (root : Node) :
  computeEnvelope W H (Some root)
  = Ok (match page_boxes root with
        | [] => emptyEnvelope W H
        | b0 :: bs => fitEnvelope W H b0 bs
        end).
Proof.
  unfold computeEnvelope, page_boxes.
  pose proof (collectBoxed_has_box root) as Hall.
  destruct (collectBoxed root) as [|n0 rest]; [reflexivity|].
  simpl in Hall. apply andb_true_iff in Hall as [Hn0 Hrest].
  rewrite (mapM_boxOf rest Hrest).
  unfold has_box in Hn0. unfold boxOf. simpl.
  destruct (absoluteBoundingBox n0); [reflexivity|discriminate].
Qed.

Lemma page_boxes_In (root n : Node) (b : BoundingBox) :
  In n (preorder root) -> absoluteBoundingBox n = Some b ->
  In b (page_boxes root).
Proof.
  intros Hn Hb. unfold page_boxes, boxes_of. apply in_flat_map.
  exists n. split.
  - rewrite collectBoxed_filter. apply filter_In. split; [assumption|].
    unfold has_box. now rewrite Hb.
  - rewrite Hb. now left.
Qed.

Lemma page_boxes_nonneg (root : Node) :
  sizes_nonneg root = true ->
  forall b, In b (page_boxes root) -> box_nonneg b = true.
Proof.
  unfold sizes_nonneg. rewrite forallb_forall.
  intros Hall b Hb. unfold page_boxes, boxes_of in Hb.
  apply in_flat_map in Hb as (n & Hn & Hb).
  rewrite collectBoxed_filter in Hn. apply filter_In in Hn as [Hn _].
  specialize (Hall n Hn).
  destruct (absoluteBoundingBox n); [|contradiction].
  destruct Hb as [<-|[]]. assumption.
Qed.

Lemma box_right_ge (b : BoundingBox) :
  box_nonneg b = true -> box_x b <= box_right b.
Proof.
  unfold box_nonneg, box_right. rewrite andb_true_iff. intros [Hw _].
  assert (0 <= opt_num_or (box_width b) 0).
  { apply opt_num_or_nonneg. intros q E. rewrite E in Hw.
    now apply Qle_bool_iff. }
  lra.
Qed.

Lemma box_bottom_ge (b : BoundingBox) :
  box_nonneg b = true -> box_y b <= box_bottom b.
Proof.
  unfold box_nonneg, box_bottom. rewrite andb_true_iff. intros [_ Hh].
  assert (0 <= opt_num_or (box_height b) 0).
  { apply opt_num_or_nonneg. intros q E. rewrite E in Hh.
    now apply Qle_bool_iff. }
  lra.
Qed.

Lemma extent_x_nonneg (b0 : BoundingBox) (bs : list BoundingBox) :
  box_nonneg b0 = true -> 0 <= maxX b0 bs - minX b0 bs.
Proof.
  intro H0. unfold maxX, minX.
  pose proof (Math_max_ge_head (map box_right bs) (box_right b0)).
  pose proof (Math_min_le_head (map box_x bs) (box_x b0)).
  pose proof (box_right_ge b0 H0). lra.
Qed.

Lemma extent_y_nonneg (b0 : BoundingBox) (bs : list BoundingBox) :
  box_nonneg b0 = true -> 0 <= maxY b0 bs - minY b0 bs.
Proof.
  intro H0. unfold maxY, minY.
  pose proof (Math_max_ge_head (map box_bottom bs) (box_bottom b0)).
  pose proof (Math_min_le_head (map box_y bs) (box_y b0)).
  pose proof (box_bottom_ge b0 H0). lra.
Qed.

Lemma pageWidth_pos (b0 : BoundingBox) (bs : list BoundingBox) :
  box_nonneg b0 = true -> 0 < pageWidth b0 bs.
Proof. intro H0. apply num_or_one_pos, extent_x_nonneg, H0. Qed.

Lemma pageHeight_pos (b0 : BoundingBox) (bs : list BoundingBox) :
  box_nonneg b0 = true -> 0 < pageHeight b0 bs.
Proof. intro H0. apply num_or_one_pos, extent_y_nonneg, H0. Qed.

(** ** The scale *)

Lemma newScale_fits (W H pw ph : Q) :
  pw <= W -> ph <= H -> newScale W H pw ph = 1.
Proof.
  intros Hw Hh. unfold newScale.
  apply Qgtb_false in Hw, Hh. now rewrite Hw, Hh.
Qed.

Lemma newScale_shrinks (W H pw ph : Q) :
  ~ (pw <= W /\ ph <= H) ->
  newScale W H pw ph = Qmin (W / pw) (H / ph).
Proof.
  intro Hn. unfold newScale.
  destruct (Qgtb pw W) eqn:Ew; [reflexivity|].
  destruct (Qgtb ph H) eqn:Eh; [reflexivity|].
  exfalso. apply Hn. split; now apply Qgtb_false.
Qed.

Lemma ratio_lt_one (V p : Q) : 0 < p -> V < p -> V / p <= 1.
Proof.
  intros Hp Hlt. apply Qle_shift_div_r; [assumption|]. lra.
Qed.

Lemma ratio_pos (V p : Q) : 0 < V -> 0 < p -> 0 < V / p.
Proof.
  intros HV Hp. apply Qlt_shift_div_l; [assumption|]. lra.
Qed.

Lemma newScale_le_one (W H pw ph : Q) :
  0 < pw -> 0 < ph -> newScale W H pw ph <= 1.
Proof.
  intros Hpw Hph. unfold newScale.
  destruct (Qgtb pw W) eqn:Ew; simpl.
  - apply Qgtb_true in Ew.
    eapply Qle_trans; [apply Q.le_min_l | now apply ratio_lt_one].
  - destruct (Qgtb ph H) eqn:Eh; [|apply Qle_refl].
    apply Qgtb_true in Eh.
    eapply Qle_trans; [apply Q.le_min_r | now apply ratio_lt_one].
Qed.

Lemma newScale_pos (W H pw ph : Q) :
  0 < W -> 0 < H -> 0 < pw -> 0 < ph -> 0 < newScale W H pw ph.
Proof.
  intros HW HH Hpw Hph. unfold newScale.
  destruct (Qgtb pw W || Qgtb ph H); [|reflexivity].
  apply Q.min_glb_lt; now apply ratio_pos.
Qed.

(** ** Claims on the envelope *)

(** C9.  When no node of the subtree of [root] carries a bounding box, the
    calculator returns, as a value and not as an exception, the envelope with
    offset (0, 0), scale 1 and the viewport dimensions it was given. *)
Theorem computeEnvelope_no_box (W H : Q) (root : Node) :
  (forall n, In n (preorder root) -> absoluteBoundingBox n = None) ->
  computeEnvelope W H (Some root) = Ok (mkEnvelope (mkPoint 0 0) 1 W H).
Proof.
  intro Hnone. rewrite computeEnvelope_page.
  unfold page_boxes. rewrite collectBoxed_filter.
  replace (filter has_box (preorder root)) with (@nil Node); [reflexivity|].
  symmetry. induction (preorder root) as [|m l IHl]; [reflexivity|]. simpl.
  unfold has_box at 1. rewrite (Hnone m (or_introl eq_refl)).
  apply IHl. intros n Hn. apply Hnone. now right.
Qed.

Lemma computeEnvelope_no_box_witness :
  computeEnvelope 900 600 (Some bare_page)
  = Ok (mkEnvelope (mkPoint 0 0) 1 900 600).
Proof.
  apply (computeEnvelope_no_box 900 600 bare_page).
  intros n Hn. simpl in Hn.
  repeat (destruct Hn as [<-|Hn]; [reflexivity|]). contradiction.
Defined.

(** C1.  On a tree whose boxed nodes have no negative width or height the
    calculator returns an envelope whose scale is never above 1.  With [pw]
    and [ph] the page width and height it derives, the scale is 1 when
    [pw <= W] and [ph <= H], equality included, and
    [min (W / pw) (H / ph)] otherwise. *)
Theorem computeEnvelope_scale (W H : Q) (root : Node) :
  0 < W -> 0 < H -> sizes_nonneg root = true ->
  exists env,
    computeEnvelope W H (Some root) = Ok env
    /\ scale env <= 1
    /\ forall b0 bs, page_boxes root = b0 :: bs ->
         let pw := pageWidth b0 bs in
         let ph := pageHeight b0 bs in
         (pw <= W /\ ph <= H -> scale env == 1)
         /\ (pw == W /\ ph == H -> scale env == 1)
         /\ (~ (pw <= W /\ ph <= H) -> scale env == Qmin (W / pw) (H / ph)).
Proof.
  intros _ _ Hnn. rewrite computeEnvelope_page.
  pose proof (page_boxes_nonneg root Hnn) as Hall.
  destruct (page_boxes root) as [|b0 bs] eqn:E.
  - eexists. split; [reflexivity|]. split; [simpl; lra|]. discriminate.
  - assert (H0 : box_nonneg b0 = true) by (apply Hall; now left).
    eexists. split; [reflexivity|]. simpl. split.
    + apply newScale_le_one; [now apply pageWidth_pos | now apply pageHeight_pos].
    + intros b0' bs' [= <- <-]. repeat split.
      * intros [Hw Hh]. now rewrite newScale_fits.
      * intros [Hw Hh]. rewrite newScale_fits; [reflexivity| |];
          rewrite ?Hw, ?Hh; apply Qle_refl.
      * intro Hn. now rewrite newScale_shrinks.
Qed.

Lemma computeEnvelope_scale_witness :
  exists env,
    computeEnvelope 900 600 (Some wide_page) = Ok env
    /\ scale env <= 1
    /\ scale env == 1 # 2.
Proof.
  destruct (computeEnvelope_scale 900 600 wide_page)
    as (env & Henv & Hle & Hcases); [reflexivity|reflexivity|reflexivity|].
  exists env. split; [assumption|]. split; [assumption|].
  destruct (Hcases (mkBox 10 20 (Some 1800) (Some 600))
                   [mkBox 10 20 (Some 100) (Some 50);
                    mkBox 40 30 (Some 200) (Some 24)] eq_refl)
    as (_ & _ & Hshrink).
  rewrite Hshrink; [reflexivity|].
  intros [Hw _]. vm_compute in Hw. apply Hw. reflexivity.
Defined.

(** C7, the claim as worded fails: an extent of one half is kept as it is,
    it is not raised to 1. *)
Lemma pageWidth_fraction_kept :
  page_boxes tiny_page = [tiny_box]
  /\ maxX tiny_box [] - minX tiny_box [] == 1 # 2
  /\ pageWidth tiny_box [] == 1 # 2
  /\ pageHeight tiny_box [] == 1 # 2
  /\ Qmax (maxX tiny_box [] - minX tiny_box []) 1 == 1
  /\ ~ pageWidth tiny_box [] == Qmax (maxX tiny_box [] - minX tiny_box []) 1.
Proof.
  repeat split. intro E. vm_compute in E. discriminate E.
Qed.

(** C7, amended.  For a tree with at least one boxed node the page width is
    the extent [maxX - minX] when that extent is not zero, and 1 when it is
    zero; the page height likewise from [maxY - minY].  So the derived size
    agrees with [max (extent, 1)] when the extent is zero or at least 1,
    and these are the sizes the scale is formed from. *)
Theorem pageSize_zero_replaced (W H : Q) (root : Node) (b0 : BoundingBox)
        (bs : list BoundingBox) :
  page_boxes root = b0 :: bs ->
  let ex := maxX b0 bs - minX b0 bs in
  let ey := maxY b0 bs - minY b0 bs in
  (ex == 0 -> pageWidth b0 bs == 1)
  /\ (~ ex == 0 -> pageWidth b0 bs == ex)
  /\ (ey == 0 -> pageHeight b0 bs == 1)
  /\ (~ ey == 0 -> pageHeight b0 bs == ey)
  /\ (ex == 0 \/ 1 <= ex -> pageWidth b0 bs == Qmax ex 1)
  /\ (ey == 0 \/ 1 <= ey -> pageHeight b0 bs == Qmax ey 1)
  /\ exists env,
       computeEnvelope W H (Some root) = Ok env
       /\ scale env = newScale W H (pageWidth b0 bs) (pageHeight b0 bs).
Proof.
  intros Hboxes ex ey.
  assert (Hor : forall e, (e == 0 -> num_or e 1 == 1)
                          /\ (~ e == 0 -> num_or e 1 == e)
                          /\ (e == 0 \/ 1 <= e -> num_or e 1 == Qmax e 1)).
  { intro e. destruct (num_or_cases e 1) as [[Hz ->]|[Hnz ->]].
    - split; [reflexivity|]. split; [tauto|].
      intros _. rewrite Hz. reflexivity.
    - split; [tauto|]. split; [reflexivity|].
      intros [Hz|Hge]; [tauto|].
      symmetry. apply Q.max_l. exact Hge. }
  destruct (Hor ex) as (X1 & X2 & X3), (Hor ey) as (Y1 & Y2 & Y3).
  repeat (split; [assumption|]).
  rewrite computeEnvelope_page, Hboxes. eexists. split; reflexivity.
Qed.

Lemma pageSize_zero_replaced_witness :
  pageWidth tiny_box [] == 1 # 2.
Proof.
  destruct (pageSize_zero_replaced 900 600 tiny_page
              tiny_box [] eq_refl)
    as (_ & Hkeep & _).
  rewrite Hkeep; [reflexivity|].
  intro Hz. vm_compute in Hz. discriminate Hz.
Defined.

(** The application's own instance, viewport 900 by 600. *)
Example App_envelope_exact_fit :
  App_envelope (Some exact_page) = Ok (mkEnvelope (mkPoint 0 0) 1 900 600).
Proof. reflexivity. Qed.

Example App_envelope_no_page :
  App_envelope None = Ok (mkEnvelope (mkPoint 0 0) 1 900 600).
Proof. reflexivity. Qed.

Example collectBoxed_wide_page :
  collectBoxed wide_page = [wide_frame; red_rect; title_text].
Proof. reflexivity. Qed.

(** A single node of no size: the extent is 0 and the page is 1 by 1. *)
Example pageSize_single_point :
  pageWidth (mkBox 3 4 None None) [] = 1
  /\ pageHeight (mkBox 3 4 (Some 0) (Some 0)) [] = 1.
Proof. split; reflexivity. Qed.

(** ** Claims on the style resolver *)

Lemma Math_round_nearest (v : Q) :
  inject_Z (Math_round v) - (1 # 2) <= v /\ v < inject_Z (Math_round v) + (1 # 2).
Proof.
  unfold Math_round.
  pose proof (Qfloor_le (v + (1 # 2))) as Hlo.
  pose proof (Qlt_floor (v + (1 # 2))) as Hhi.
  rewrite inject_Z_plus in Hhi.
  change (inject_Z 1) with 1 in Hhi.
  generalize dependent (Qfloor (v + (1 # 2))). intros z Hlo Hhi.
  generalize dependent (inject_Z z). intros q Hlo Hhi.
  split; lra.
Qed.

Lemma Math_round_channel (c : Q) :
  0 <= c -> c <= 1 -> (0 <= Math_round (c * 255) <= 255)%Z.
Proof.
  intros H0 H1. unfold Math_round.
  assert (Hlo : (Qfloor 0 <= Qfloor (c * 255 + (1 # 2)))%Z)
    by (apply Qfloor_resp_le; lra).
  assert (Hhi : (Qfloor (c * 255 + (1 # 2)) <= Qfloor (255 + (1 # 2)))%Z)
    by (apply Qfloor_resp_le; lra).
  change (Qfloor 0) with 0%Z in Hlo.
  change (Qfloor (255 + (1 # 2))) with 255%Z in Hhi.
  split; assumption.
Qed.

(** C6, the claim as worded fails: a first entry tagged SOLID whose colour
    is missing does not resolve to Transparent, the read of its channels
    raises a TypeError. *)
Lemma resolveFill_missing_color :
  resolveFill (Some [mkPaint "SOLID" None]) = TypeError.
Proof. reflexivity. Qed.

(** C6, amended.  [resolveFill] returns Transparent when the list is absent
    or empty and when its first entry is not tagged SOLID.  When the first
    entry is tagged SOLID and carries its colour, the result is the RGBA
    colour whose red, green and blue are the channels times 255 rounded to
    the nearest integer (between 0 and 255 for channels between 0 and 1) and
    whose alpha is the channel as it is; the entries after the first are not
    read.  [{type:'SOLID', color:{r:1,g:0,b:0,a:0.5}}] resolves to
    RGBA (255, 0, 0, 0.5). *)
Theorem resolveFill_first_entry (fl : option (list Paint)) :
  (fl = None \/ fl = Some [] -> resolveFill fl = Ok Transparent)
  /\ (forall first rest,
        fl = Some (first :: rest) -> paint_type first <> "SOLID" ->
        resolveFill fl = Ok Transparent)
  /\ (forall first rest c,
        fl = Some (first :: rest) -> paint_type first = "SOLID" ->
        paint_color first = Some c ->
        resolveFill fl
        = Ok (Rgba (Math_round (color_r c * 255)) (Math_round (color_g c * 255))
                   (Math_round (color_b c * 255)) (color_a c))
        /\ (0 <= color_r c <= 1 -> (0 <= Math_round (color_r c * 255) <= 255)%Z)
        /\ (0 <= color_g c <= 1 -> (0 <= Math_round (color_g c * 255) <= 255)%Z)
        /\ (0 <= color_b c <= 1 -> (0 <= Math_round (color_b c * 255) <= 255)%Z))
  /\ (forall first rest rest',
        fl = Some (first :: rest) ->
        resolveFill (Some (first :: rest')) = resolveFill fl)
  /\ (forall v, inject_Z (Math_round v) - (1 # 2) <= v
                 /\ v < inject_Z (Math_round v) + (1 # 2))
  /\ resolveFill (Some [mkPaint "SOLID" (Some (mkColor 1 0 0 (1 # 2)))])
     = Ok (Rgba 255 0 0 (1 # 2)).
Proof.
  split; [intros [->| ->]; reflexivity|].
  split.
  { intros first rest -> Hty. simpl.
    apply String.eqb_neq in Hty. now rewrite Hty. }
  split.
  { intros first rest c -> Hty Hc. simpl.
    apply String.eqb_eq in Hty. rewrite Hty, Hc.
    split; [reflexivity|].
    split; [|split]; intros [? ?]; now apply Math_round_channel. }
  split; [intros first rest rest' ->; reflexivity|].
  split; [apply Math_round_nearest | reflexivity].
Qed.

Lemma resolveFill_first_entry_witness :
  resolveFill (Some [solid (1 # 2) 1 0 1; mkPaint "IMAGE" None])
  = Ok (Rgba 128 255 0 1).
Proof.
  destruct (resolveFill_first_entry
              (Some [solid (1 # 2) 1 0 1; mkPaint "IMAGE" None]))
    as (_ & _ & Hsolid & _).
  destruct (Hsolid (solid (1 # 2) 1 0 1) [mkPaint "IMAGE" None]
                   (mkColor (1 # 2) 1 0 1) eq_refl eq_refl eq_refl)
    as (Heq & _).
  exact Heq.
Defined.

(** C8, the claim as worded fails: a font size of 0 does not pass through,
    the default 16 takes its place. *)
Lemma resolveTextStyle_zero_size :
  resolveTextStyle (Some (mkStyle (Some "Inter") (Some 0))) = ("Inter", 16).
Proof. reflexivity. Qed.

(** C8, amended.  [resolveTextStyle] returns the family "sans-serif" and the
    size 16 when the style is absent, and each default when the respective
    field is absent; a family that is present and not empty passes through.
    A font size that is present and not zero passes through
    unchanged, negative values included, without validation; a font size of
    zero is replaced by the default 16. *)
Theorem resolveTextStyle_defaults (st : option TextStyle) :
  (st = None -> resolveTextStyle st = ("sans-serif", 16))
  /\ (style_fontFamily st = None -> fst (resolveTextStyle st) = "sans-serif")
  /\ (style_fontSize st = None -> snd (resolveTextStyle st) = 16)
  /\ (forall s, style_fontFamily st = Some s -> s <> "" ->
                fst (resolveTextStyle st) = s)
  /\ (forall q, style_fontSize st = Some q -> ~ q == 0 ->
                snd (resolveTextStyle st) = q)
  /\ (forall q, style_fontSize st = Some q -> q == 0 ->
                snd (resolveTextStyle st) = 16).
Proof.
  split; [intros ->; reflexivity|].
  unfold resolveTextStyle; simpl.
  split; [intros ->; reflexivity|].
  split; [intros ->; reflexivity|].
  split; [intros s -> Hs; destruct s; [congruence | reflexivity]|].
  split; intros q -> Hq; simpl;
    destruct (num_or_cases q 16) as [[Hz ->]|[Hnz ->]]; tauto.
Qed.

Lemma resolveTextStyle_defaults_witness :
  snd (resolveTextStyle (Some (mkStyle None (Some (-3))))) = -3.
Proof.
  destruct (resolveTextStyle_defaults (Some (mkStyle None (Some (-3)))))
    as (_ & _ & _ & _ & Hpass & _).
  apply Hpass; [reflexivity|].
  intro Hz. vm_compute in Hz. discriminate Hz.
Defined.

(** ** Claims on the projector *)

Lemma FigmaNode_eq (node : Node) (off : Point) (sc : Q) :
  FigmaNode node off sc
  = if String.eqb (type node) "RECTANGLE" then
      p <- rectangleDiv node off sc ;; Ok [p]
    else if String.eqb (type node) "TEXT" then
      Ok [textDiv node off sc]
    else flatten (map (fun child => FigmaNode child off sc) (child_list node)).
Proof.
  destruct node as [i t bb fl ch st cs]; unfold child_list; simpl.
  destruct cs; reflexivity.
Qed.

Lemma FigmaNode_sources_eq (node : Node) (off : Point) (sc : Q) :
  FigmaNode_sources node off sc
  = if String.eqb (type node) "RECTANGLE" then
      p <- rectangleDiv node off sc ;; Ok [(node, p)]
    else if String.eqb (type node) "TEXT" then
      Ok [(node, textDiv node off sc)]
    else flatten (map (fun child => FigmaNode_sources child off sc)
                      (child_list node)).
Proof.
  destruct node as [i t bb fl ch st cs]; unfold child_list; simpl.
  destruct cs; reflexivity.
Qed.

Lemma visited_eq (node : Node) :
  visited node
  = node :: (if String.eqb (type node) "RECTANGLE" then []
             else if String.eqb (type node) "TEXT" then []
             else flat_map visited (child_list node)).
Proof.
  destruct node as [i t bb fl ch st cs]; unfold child_list; simpl.
  destruct cs; reflexivity.
Qed.

Lemma flatten_all_Ok {A : Type} (pss : list (list A)) :
  flatten (map Ok pss) = Ok (List.concat pss).
Proof.
  induction pss as [|ps t IH]; simpl; [reflexivity|]. now rewrite IH.
Qed.

Lemma rectangleDiv_fill (n : Node) (off : Point) (sc : Q) :
  String.eqb (type n) "RECTANGLE" = true ->
  if fill_broken n then rectangleDiv n off sc = TypeError
  else exists bg,
      rectangleDiv n off sc
      = Ok (Rect (style_left n off sc) (style_top n off sc)
                 (style_width n sc) (style_height n sc) bg).
Proof.
  intro Hty. unfold fill_broken, rectangleDiv, resolveFill. rewrite Hty. simpl.
  destruct (fills n) as [[|first rest]|]; simpl; eauto.
  destruct (String.eqb (paint_type first) "SOLID"); simpl; eauto.
  destruct (paint_color first); simpl; eauto.
Qed.

Lemma opt_num_or_field (v : option Q) : opt_num_or v 0 == field_or_zero v.
Proof. destruct v; simpl; [apply num_or_zero | reflexivity]. Qed.

(** C4.  The one primitive a RECTANGLE node is rendered to is a [Rect] at
    [(boxX - offset.x) * scale], [(boxY - offset.y) * scale], of width
    [boxWidth * scale] and height [boxHeight * scale], where a box field
    that is absent counts as 0.  The rectangle with box (10, 20, 100, 50)
    under offset (0, 0) and scale 1 gives one [Rect] at (10, 20, 100, 50). *)
Theorem rectangle_screen_box (node : Node) (env : Envelope)
        (ps : list VisualPrimitive) :
  type node = "RECTANGLE" ->
  project node env = Ok ps ->
  (exists l t w h bg,
      ps = [Rect l t w h bg]
      /\ l == (field_or_zero (bbox_x node) - pt_x (offset env)) * scale env
      /\ t == (field_or_zero (bbox_y node) - pt_y (offset env)) * scale env
      /\ w == field_or_zero (bbox_width node) * scale env
      /\ h == field_or_zero (bbox_height node) * scale env)
  /\ forall W H,
      project red_rect (mkEnvelope (mkPoint 0 0) 1 W H)
      = Ok [Rect 10 20 100 50 (Rgba 255 0 0 (1 # 2))].
Proof.
  intros Hty Hps. split; [|reflexivity].
  unfold project in Hps. rewrite FigmaNode_eq in Hps.
  apply String.eqb_eq in Hty. rewrite Hty in Hps.
  pose proof (rectangleDiv_fill node (offset env) (scale env) Hty) as Hdiv.
  destruct (fill_broken node).
  - rewrite Hdiv in Hps. discriminate.
  - destruct Hdiv as [bg Hdiv]. rewrite Hdiv in Hps. simpl in Hps.
    injection Hps as <-.
    do 5 eexists. split; [reflexivity|].
    unfold style_left, style_top, style_width, style_height.
    now rewrite !opt_num_or_field.
Qed.

Lemma rectangle_screen_box_witness :
  exists l t w h bg,
    [Rect 0 20 200 100 (Rgba 255 0 0 (1 # 2))] = [Rect l t w h bg]
    /\ l == (10 - 10) * 2 /\ t == (20 - 10) * 2 /\ w == 100 * 2 /\ h == 50 * 2.
Proof.
  destruct (rectangle_screen_box red_rect
              (mkEnvelope (mkPoint 10 10) 2 900 600)
              [Rect 0 20 200 100 (Rgba 255 0 0 (1 # 2))] eq_refl eq_refl)
    as (Hbox & _).
  exact Hbox.
Defined.

Lemma FigmaNode_other (node : Node) (off : Point) (sc : Q) :
  other_tag (type node) ->
  FigmaNode node off sc
  = flatten (map (fun child => FigmaNode child off sc) (child_list node)).
Proof.
  intros [Hr Ht]. rewrite FigmaNode_eq.
  apply String.eqb_neq in Hr, Ht. now rewrite Hr, Ht.
Qed.

(** The render area of a page is the projection of the page taken as a
    container. *)
Lemma renderArea_as_project (page : Node) (env : Envelope) :
  other_tag (type page) ->
  renderArea (Some page) env = project page env.
Proof.
  intro Htag. unfold project. rewrite (FigmaNode_other _ _ _ Htag).
  destruct page as [i t bb fl ch st cs]; unfold child_list; simpl.
  destruct cs; reflexivity.
Qed.

(** C3, the claim as worded fails: a RECTANGLE whose first fill is tagged
    SOLID and has no colour emits no primitive, the rendering raises a
    TypeError. *)
Lemma FigmaNode_rectangle_raises :
  type hollow_rect = "RECTANGLE"
  /\ FigmaNode hollow_rect (mkPoint 0 0) 1 = TypeError.
Proof. split; reflexivity. Qed.

(** C3, amended.  [FigmaNode] dispatches on the type tag.  A RECTANGLE never
    has its children traversed and, unless its first fill is a SOLID entry
    without colour, emits exactly one [Rect]; a TEXT emits exactly one
    [TextBlock] and never has its children traversed.  A node with any other
    tag emits nothing of its own: its result is the results of its children
    put together in their stored order, which is their concatenation when
    every child renders and the empty sequence when there is no child; the
    tag itself plays no part, so an unknown tag behaves as a container with
    the same children. *)
Theorem FigmaNode_dispatch (node : Node) (off : Point) (sc : Q) :
  (type node = "RECTANGLE" ->
     (forall cs, FigmaNode (set_children node cs) off sc = FigmaNode node off sc)
     /\ (fill_broken node = false ->
         exists l t w h bg, FigmaNode node off sc = Ok [Rect l t w h bg]))
  /\ (type node = "TEXT" ->
     (forall cs, FigmaNode (set_children node cs) off sc = FigmaNode node off sc)
     /\ exists l t w h c fs ff tx,
         FigmaNode node off sc = Ok [TextBlock l t w h c fs ff tx])
  /\ (other_tag (type node) ->
     FigmaNode node off sc
     = flatten (map (fun child => FigmaNode child off sc) (child_list node))
     /\ (child_list node = [] -> FigmaNode node off sc = Ok [])
     /\ (forall pss,
           map (fun child => FigmaNode child off sc) (child_list node)
           = map Ok pss ->
           FigmaNode node off sc = Ok (List.concat pss))
     /\ (forall t', other_tag t' ->
           FigmaNode (set_type node t') off sc = FigmaNode node off sc)).
Proof.
  split; [|split].
  - intro Hty. apply String.eqb_eq in Hty. split.
    + intro cs. rewrite !FigmaNode_eq. simpl. now rewrite Hty.
    + intro Hfill. rewrite FigmaNode_eq, Hty.
      pose proof (rectangleDiv_fill node off sc Hty) as Hdiv.
      rewrite Hfill in Hdiv. destruct Hdiv as [bg ->]. simpl. eauto 6.
  - intro Hty. split.
    + intro cs. rewrite !FigmaNode_eq. simpl. now rewrite Hty.
    + rewrite FigmaNode_eq, Hty. simpl. unfold textDiv. eauto 9.
  - intro Htag. pose proof (FigmaNode_other node off sc Htag) as Heq.
    split; [exact Heq|]. split; [|split].
    + intro Hnil. now rewrite Heq, Hnil.
    + intros pss Hall. rewrite Heq, Hall. apply flatten_all_Ok.
    + intros t' Htag'. rewrite Heq.
      now rewrite (FigmaNode_other (set_type node t') off sc Htag').
Qed.

Lemma FigmaNode_dispatch_witness :
  FigmaNode (group "6:1" "FRAME" None two_children) (mkPoint 0 0) 1
  = Ok [Rect 10 20 100 50 (Rgba 255 0 0 (1 # 2));
        TextBlock 40 30 200 24 "#222" 12 "Inter" (Some "Hello")]
  /\ FigmaNode (group "6:1" "STAR" None two_children) (mkPoint 0 0) 1
     = FigmaNode (group "6:1" "FRAME" None two_children) (mkPoint 0 0) 1.
Proof.
  destruct (FigmaNode_dispatch (group "6:1" "FRAME" None two_children)
                               (mkPoint 0 0) 1)
    as (_ & _ & Hother).
  destruct Hother as (_ & _ & Hconcat & Hsame).
  { split; discriminate. }
  split.
  - apply (Hconcat [[Rect 10 20 100 50 (Rgba 255 0 0 (1 # 2))];
                    [TextBlock 40 30 200 24 "#222" 12 "Inter" (Some "Hello")]]).
    reflexivity.
  - apply (Hsame "STAR"). split; discriminate.
Defined.

(** ** Totality of the projector *)

Lemma flatten_defined {A : Type} (F : Node -> result (list A)) (cs : list Node) :
  Forall (fun c => exists ps, F c = Ok ps) cs ->
  exists out, flatten (map F cs) = Ok out.
Proof.
  induction 1 as [|c t [ps Hc] _ [out IH]]; simpl; [eauto|].
  rewrite Hc, IH. simpl. eauto.
Qed.

Lemma flatten_raises {A : Type} (F : Node -> result (list A)) (cs : list Node) :
  Exists (fun c => F c = TypeError) cs -> flatten (map F cs) = TypeError.
Proof.
  induction 1 as [c t Hc|c t _ IH]; simpl.
  - now rewrite Hc.
  - rewrite IH. now destruct (F c).
Qed.

Lemma FigmaNode_fill_sound (node : Node) (off : Point) (sc : Q) :
  if forallb fill_sound (visited node)
  then exists ps, FigmaNode node off sc = Ok ps
  else FigmaNode node off sc = TypeError.
Proof.
  induction node as [node IH] using Node_tree_ind.
  rewrite FigmaNode_eq, visited_eq. simpl.
  destruct (String.eqb (type node) "RECTANGLE") eqn:Er.
  - simpl. unfold fill_sound. rewrite andb_true_r.
    pose proof (rectangleDiv_fill node off sc Er) as Hdiv.
    destruct (fill_broken node); simpl.
    + now rewrite Hdiv.
    + destruct Hdiv as [bg ->]. simpl. eauto.
  - assert (Hself : fill_sound node = true)
      by (unfold fill_sound, fill_broken; now rewrite Er).
    rewrite Hself. simpl.
    destruct (String.eqb (type node) "TEXT"); [simpl; eauto|].
    induction IH as [|c t Hc _ IHt]; simpl; [eauto|].
    rewrite forallb_app.
    destruct (forallb fill_sound (visited c)); simpl.
    + destruct Hc as [ps ->]. simpl.
      destruct (forallb fill_sound (flat_map visited t)).
      * destruct IHt as [out ->]. simpl. eauto.
      * now rewrite IHt.
    + now rewrite Hc.
Qed.

(** C5, the claim as worded fails: the projection of a frame that holds a
    RECTANGLE whose SOLID fill has no colour raises a TypeError. *)
Lemma project_raises :
  project hollow_frame (mkEnvelope (mkPoint 0 0) 1 900 600) = TypeError.
Proof. reflexivity. Qed.

(** C5, amended.  [project] returns a sequence of primitives, and raises
    nothing, exactly when no RECTANGLE it reaches has a first fill tagged
    SOLID without a colour.  Nothing else is asked of the nodes: a missing
    box, missing or empty fills, a fill that is not SOLID, a missing style,
    an unknown type and missing or empty children all resolve to a result. *)
Theorem project_total_iff (node : Node) (env : Envelope) :
  (exists ps, project node env = Ok ps)
  <-> forallb fill_sound (visited node) = true.
Proof.
  unfold project.
  pose proof (FigmaNode_fill_sound node (offset env) (scale env)) as H.
  destruct (forallb fill_sound (visited node)).
  - tauto.
  - rewrite H. split; [intros [ps Hps]|]; discriminate.
Qed.

Lemma project_total_iff_witness :
  exists ps,
    project (group "7:1" "INSTANCE" None
                   [leaf "7:2" "RECTANGLE" None None;
                    leaf "7:3" "RECTANGLE" None (Some []);
                    leaf "7:4" "RECTANGLE" None (Some [mkPaint "IMAGE" None]);
                    leaf "7:5" "TEXT" None None;
                    leaf "7:6" "VECTOR" None None;
                    group "7:7" "GROUP" None []])
            (mkEnvelope (mkPoint 0 0) 1 900 600) = Ok ps.
Proof.
  apply (proj2 (project_total_iff _ _)). reflexivity.
Defined.

(** ** Screen coordinates under the envelope of the same tree *)

Lemma flatten_map_snd {A B : Type} (F : Node -> result (list B))
      (G : Node -> result (list (A * B))) (cs : list Node) :
  Forall (fun c => F c = result_map (map snd) (G c)) cs ->
  flatten (map F cs) = result_map (map snd) (flatten (map G cs)).
Proof.
  induction 1 as [|c t Hc _ IH]; simpl; [reflexivity|].
  rewrite Hc, IH. destruct (G c) as [ps|]; simpl; [|reflexivity].
  destruct (flatten (map G t)) as [qs|]; simpl; [|reflexivity].
  now rewrite map_app.
Qed.

(** Forgetting the source nodes of [FigmaNode_sources] gives [FigmaNode]. *)
Lemma FigmaNode_sources_erase (node : Node) (off : Point) (sc : Q) :
  FigmaNode node off sc
  = result_map (map snd) (FigmaNode_sources node off sc).
Proof.
  induction node as [node IH] using Node_tree_ind.
  rewrite FigmaNode_eq, FigmaNode_sources_eq.
  destruct (String.eqb (type node) "RECTANGLE").
  - destruct (rectangleDiv node off sc); reflexivity.
  - destruct (String.eqb (type node) "TEXT"); [reflexivity|].
    now apply flatten_map_snd.
Qed.

Lemma flatten_In {A : Type} (F : Node -> result (list A)) (cs : list Node) :
  forall out, flatten (map F cs) = Ok out ->
  forall x, In x out -> exists c ps, In c cs /\ F c = Ok ps /\ In x ps.
Proof.
  induction cs as [|c t IH]; simpl; intros out Hout x Hx.
  - injection Hout as <-. contradiction.
  - destruct (F c) as [ps|] eqn:Ec; simpl in Hout; [|discriminate].
    destruct (flatten (map F t)) as [qs|]; simpl in Hout; [|discriminate].
    injection Hout as <-. apply in_app_or in Hx as [Hx|Hx].
    + exists c, ps. auto.
    + destruct (IH qs eq_refl x Hx) as (c' & ps' & Hc' & Hps' & Hin).
      exists c', ps'. auto.
Qed.

(** Every pair of [FigmaNode_sources] holds a node of the tree and the
    primitive of one of the two branches for that node. *)
Lemma FigmaNode_sources_In (node : Node) (off : Point) (sc : Q) :
  forall out, FigmaNode_sources node off sc = Ok out ->
  forall m p, In (m, p) out ->
    In m (preorder node)
    /\ (rectangleDiv m off sc = Ok p \/ p = textDiv m off sc).
Proof.
  induction node as [node IH] using Node_tree_ind.
  intros out Hout m p Hin. rewrite FigmaNode_sources_eq in Hout.
  destruct (String.eqb (type node) "RECTANGLE").
  - destruct (rectangleDiv node off sc) as [q|] eqn:Eq; [|discriminate].
    injection Hout as <-. destruct Hin as [[= <- <-]|[]].
    split; [apply preorder_root | now left].
  - destruct (String.eqb (type node) "TEXT").
    + injection Hout as <-. destruct Hin as [[= <- <-]|[]].
      split; [apply preorder_root | now right].
    + destruct (flatten_In _ _ out Hout (m, p) Hin) as (c & ps & Hc & Hps & Hmp).
      rewrite Forall_forall in IH.
      destruct (IH c Hc ps Hps m p Hmp) as [Hm Hbranch].
      split; [|exact Hbranch].
      exact (preorder_child node c Hc m Hm).
Qed.

Lemma minX_le (b0 b : BoundingBox) (bs : list BoundingBox) :
  In b (b0 :: bs) -> minX b0 bs <= box_x b.
Proof.
  intro Hb. unfold minX. apply Math_min_le.
  change (box_x b0 :: map box_x bs) with (map box_x (b0 :: bs)).
  now apply in_map.
Qed.

Lemma minY_le (b0 b : BoundingBox) (bs : list BoundingBox) :
  In b (b0 :: bs) -> minY b0 bs <= box_y b.
Proof.
  intro Hb. unfold minY. apply Math_min_le.
  change (box_y b0 :: map box_y bs) with (map box_y (b0 :: bs)).
  now apply in_map.
Qed.

Lemma branch_left_top (m : Node) (off : Point) (sc : Q) (p : VisualPrimitive) :
  rectangleDiv m off sc = Ok p \/ p = textDiv m off sc ->
  prim_left p = style_left m off sc /\ prim_top p = style_top m off sc.
Proof.
  intros [Hr| ->]; [|split; reflexivity].
  unfold rectangleDiv in Hr.
  destruct (resolveFill (fills m)); simpl in Hr; [|discriminate].
  injection Hr as <-. split; reflexivity.
Qed.

(** C10.  On a tree whose boxed nodes have no negative width or height, and
    for a viewport of positive dimensions, the envelope the calculator
    returns has a scale above zero, and every primitive the projector emits,
    from the root or from any node below it, for a node that carries a
    bounding box has a left and a top that are not negative: the offset is
    the least x and the least y over the boxed nodes of that tree. *)
Theorem envelope_keeps_boxed_on_screen (W H : Q) (root : Node) :
  0 < W -> 0 < H -> sizes_nonneg root = true ->
  exists env,
    computeEnvelope W H (Some root) = Ok env
    /\ 0 < scale env
    /\ forall start out,
         In start (preorder root) ->
         FigmaNode_sources start (offset env) (scale env) = Ok out ->
         project start env = Ok (map snd out)
         /\ forall m p, In (m, p) out -> absoluteBoundingBox m <> None ->
                        0 <= prim_left p /\ 0 <= prim_top p.
Proof.
  intros HW HH Hnn. rewrite computeEnvelope_page.
  pose proof (page_boxes_nonneg root Hnn) as Hall.
  pose proof (page_boxes_In root) as Hboxes.
  destruct (page_boxes root) as [|b0 bs] eqn:E.
  - eexists. split; [reflexivity|]. split; [reflexivity|].
    intros start out Hstart Hout. split.
    { unfold project. now rewrite FigmaNode_sources_erase, Hout. }
    intros m p Hin Hbox. exfalso.
    destruct (FigmaNode_sources_In _ _ _ out Hout m p Hin) as [Hm _].
    destruct (absoluteBoundingBox m) as [b|] eqn:Eb; [|congruence].
    exact (Hboxes m b (preorder_trans root start Hstart m Hm) Eb).
  - assert (H0 : box_nonneg b0 = true) by (apply Hall; now left).
    assert (Hsc : 0 < newScale W H (pageWidth b0 bs) (pageHeight b0 bs)).
    { apply newScale_pos; try assumption;
        [now apply pageWidth_pos | now apply pageHeight_pos]. }
    eexists. split; [reflexivity|]. simpl. split; [exact Hsc|].
    intros start out Hstart Hout. split.
    { unfold project. simpl. now rewrite FigmaNode_sources_erase, Hout. }
    intros m p Hin Hbox.
    destruct (FigmaNode_sources_In _ _ _ out Hout m p Hin) as [Hm Hbranch].
    destruct (branch_left_top _ _ _ _ Hbranch) as [-> ->].
    destruct (absoluteBoundingBox m) as [b|] eqn:Eb; [|congruence].
    pose proof (Hboxes m b (preorder_trans root start Hstart m Hm) Eb) as Hb.
    pose proof (minX_le b0 b bs Hb) as Hx.
    pose proof (minY_le b0 b bs Hb) as Hy.
    unfold style_left, style_top, bbox_x, bbox_y. rewrite Eb. simpl.
    pose proof (num_or_zero (box_x b)) as Ex.
    pose proof (num_or_zero (box_y b)) as Ey.
    split; apply Qmult_le_0_compat; lra.
Qed.

Lemma envelope_keeps_boxed_on_screen_witness :
  exists env,
    computeEnvelope 900 600 (Some wide_page) = Ok env
    /\ 0 < scale env
    /\ 0 <= prim_left (textDiv title_text (offset env) (scale env))
    /\ 0 <= prim_top (textDiv title_text (offset env) (scale env)).
Proof.
  destruct (envelope_keeps_boxed_on_screen 900 600 wide_page)
    as (env & Henv & Hpos & Hall); [reflexivity|reflexivity|reflexivity|].
  exists env. split; [exact Henv|]. split; [exact Hpos|].
  destruct (Hall title_text
                 [(title_text, textDiv title_text (offset env) (scale env))])
    as [_ Hscreen].
  - simpl. tauto.
  - reflexivity.
  - apply (Hscreen title_text); [now left | discriminate].
Defined.

(** * Further properties *)

(** ** The fitted page and the viewport *)


Lemma Qmin_pick (a b : Q) : Qmin a b = a \/ Qmin a b = b.
Proof.
  unfold Qmin, GenericMinMax.gmin. destruct (a ?= b); auto.
Qed.

Lemma Qmax_pick (a b : Q) : Qmax a b = a \/ Qmax a b = b.
Proof.
  unfold Qmax, GenericMinMax.gmax. destruct (a ?= b); auto.
Qed.

Lemma Math_min_In (xs : list Q) : forall x, In (Math_min x xs) (x :: xs).
Proof.
  unfold Math_min. induction xs as [|a t IH]; intro x; simpl.
  - now left.
  - destruct (IH (Qmin x a)) as [E|Hin]; [|now right; right].
    rewrite <- E. destruct (Qmin_pick x a) as [-> | ->]; auto.
Qed.

Lemma Math_max_In (xs : list Q) : forall x, In (Math_max x xs) (x :: xs).
Proof.
  unfold Math_max. induction xs as [|a t IH]; intro x; simpl.
  - now left.
  - destruct (IH (Qmax x a)) as [E|Hin]; [|now right; right].
    rewrite <- E. destruct (Qmax_pick x a) as [-> | ->]; auto.
Qed.














(** ** The offset of the envelope *)

Lemma page_boxes_source (root : Node) (b : BoundingBox) :
  In b (page_boxes root) ->
  exists n, In n (preorder root) /\ absoluteBoundingBox n = Some b.
Proof.
  unfold page_boxes, boxes_of. intro Hb.
  apply in_flat_map in Hb as (n & Hn & Hb).
  rewrite collectBoxed_filter in Hn. apply filter_In in Hn as [Hn _].
  exists n. split; [assumption|].
  destruct (absoluteBoundingBox n); [|contradiction].
  destruct Hb as [<-|[]]. reflexivity.
Qed.

(** X3.  When the tree has a boxed node the offset of the envelope is
    attained: some boxed node has exactly [offset.x] as its x, some boxed
    node has exactly [offset.y] as its y, and no boxed node lies to the left
    of or above the offset. *)
Theorem offset_is_attained (W H : Q) (root : Node) (b0 : BoundingBox)
        (bs : list BoundingBox) :
  page_boxes root = b0 :: bs ->
  exists env,
    computeEnvelope W H (Some root) = Ok env
    /\ (exists n b, In n (preorder root) /\ absoluteBoundingBox n = Some b
                    /\ box_x b = pt_x (offset env))
    /\ (exists n b, In n (preorder root) /\ absoluteBoundingBox n = Some b
                    /\ box_y b = pt_y (offset env))
    /\ forall n b, In n (preorder root) -> absoluteBoundingBox n = Some b ->
                   pt_x (offset env) <= box_x b /\ pt_y (offset env) <= box_y b.
Proof.
  intro Hboxes. rewrite computeEnvelope_page, Hboxes.
  eexists. split; [reflexivity|]. simpl.
  assert (Hsrc : forall (f : BoundingBox -> Q) v,
             In v (map f (b0 :: bs)) ->
             exists n b, In n (preorder root)
                         /\ absoluteBoundingBox n = Some b /\ f b = v).
  { intros f v Hv. apply in_map_iff in Hv as (b & Hfb & Hb).
    rewrite <- Hboxes in Hb.
    destruct (page_boxes_source root b Hb) as (n & Hn & Hnb). eauto. }
  split; [apply Hsrc; apply (Math_min_In (map box_x bs))|].
  split; [apply Hsrc; apply (Math_min_In (map box_y bs))|].
  intros n b Hn Hb.
  pose proof (page_boxes_In root n b Hn Hb) as Hin. rewrite Hboxes in Hin.
  split; [now apply minX_le | now apply minY_le].
Qed.

Lemma offset_is_attained_witness :
  exists env,
    computeEnvelope 900 600 (Some wide_page) = Ok env
    /\ pt_x (offset env) <= 40 /\ pt_y (offset env) <= 30.
Proof.
  destruct (offset_is_attained 900 600 wide_page
              (mkBox 10 20 (Some 1800) (Some 600))
              [mkBox 10 20 (Some 100) (Some 50);
               mkBox 40 30 (Some 200) (Some 24)] eq_refl)
    as (env & Henv & _ & _ & Hlow).
  exists env. split; [exact Henv|].
  apply (Hlow title_text (mkBox 40 30 (Some 200) (Some 24))).
  - simpl. tauto.
  - reflexivity.
Defined.

(** ** Moving the design on the canvas *)













(** ** The order of the primitives *)

Lemma filter_flat_map {A B : Type} (f : B -> bool) (g : A -> list B) (l : list A) :
  filter f (flat_map g l) = flat_map (fun a => filter f (g a)) l.
Proof.
  induction l as [|a t IH]; simpl; [reflexivity|].
  now rewrite filter_app, IH.
Qed.

Lemma flatten_map_fst {A : Type} (G : Node -> result (list (Node * A)))
      (v : Node -> list Node) (cs : list Node) :
  Forall (fun c => forall o, G c = Ok o -> map fst o = v c) cs ->
  forall out, flatten (map G cs) = Ok out -> map fst out = flat_map v cs.
Proof.
  induction 1 as [|c t Hc _ IH]; simpl; intros out Hout.
  - injection Hout as <-. reflexivity.
  - destruct (G c) as [ps|]; simpl in Hout; [|discriminate].
    destruct (flatten (map G t)) as [qs|]; simpl in Hout; [|discriminate].
    injection Hout as <-.
    now rewrite map_app, (Hc ps eq_refl), (IH qs eq_refl).
Qed.

Lemma FigmaNode_sources_order (node : Node) (off : Point) (sc : Q) :
  forall out, FigmaNode_sources node off sc = Ok out ->
              map fst out = filter leaf_tag (visited node).
Proof.
  induction node as [node IH] using Node_tree_ind.
  intros out Hout. rewrite FigmaNode_sources_eq in Hout.
  rewrite visited_eq. simpl. unfold leaf_tag at 1.
  destruct (String.eqb (type node) "RECTANGLE").
  - destruct (rectangleDiv node off sc); [|discriminate].
    injection Hout as <-. reflexivity.
  - destruct (String.eqb (type node) "TEXT"); simpl.
    + injection Hout as <-. reflexivity.
    + rewrite filter_flat_map.
      exact (flatten_map_fst _ _ _ IH out Hout).
Qed.

Lemma visited_preorder (node : Node) : incl (visited node) (preorder node).
Proof.
  induction node as [node IH] using Node_tree_ind.
  rewrite visited_eq. intros m [<-|Hm]; [apply preorder_root|].
  destruct (String.eqb (type node) "RECTANGLE"); [contradiction|].
  destruct (String.eqb (type node) "TEXT"); [contradiction|].
  apply in_flat_map in Hm as (c & Hc & Hm).
  rewrite Forall_forall in IH.
  exact (preorder_child node c Hc m (IH c Hc m Hm)).
Qed.

(** X5.  When a projection succeeds, its primitives are, one for one and in
    the same order, the RECTANGLE and TEXT nodes the projector visits, in
    document order; so there are as many primitives as such nodes, and every
    one of them comes from a node of the tree. *)
Theorem primitives_follow_document_order (node : Node) (env : Envelope)
        (ps : list VisualPrimitive) :
  project node env = Ok ps ->
  exists out,
    FigmaNode_sources node (offset env) (scale env) = Ok out
    /\ ps = map snd out
    /\ map fst out = filter leaf_tag (visited node)
    /\ List.length ps = List.length (filter leaf_tag (visited node))
    /\ forall m, In m (map fst out) -> In m (preorder node).
Proof.
  unfold project. rewrite FigmaNode_sources_erase.
  destruct (FigmaNode_sources node (offset env) (scale env)) as [out|] eqn:E;
    simpl; [|discriminate].
  intros [= <-]. exists out. split; [reflexivity|]. split; [reflexivity|].
  pose proof (FigmaNode_sources_order node _ _ out E) as Hord.
  split; [exact Hord|].
  split; [now rewrite <- Hord, !length_map|].
  intros m Hm. rewrite Hord in Hm. apply filter_In in Hm as [Hm _].
  now apply visited_preorder.
Qed.

Lemma primitives_follow_document_order_witness :
  exists out,
    FigmaNode_sources wide_frame (mkPoint 0 0) 1 = Ok out
    /\ map fst out = [red_rect; title_text].
Proof.
  destruct (primitives_follow_document_order wide_frame
              (mkEnvelope (mkPoint 0 0) 1 900 600)
              [Rect 10 20 100 50 (Rgba 255 0 0 (1 # 2));
               TextBlock 40 30 200 24 "#222" 12 "Inter" (Some "Hello")]
              eq_refl)
    as (out & Hout & _ & Hord & _).
  exists out. split; [exact Hout | exact Hord].
Defined.

(** ** The shared array of the collector *)

(** X6.  A call of the collector on an array that already holds nodes keeps
    them, in place, and appends what the call on an empty array returns; and
    that is the node itself, when it has a box, followed by what each child
    contributes, in the stored order of the children. *)
Theorem collector_appends (node : Node) (arr : list Node) :
  collectNodesWithBBox node arr = arr ++ collectBoxed node
  /\ collectBoxed node
     = (if has_box node then [node] else [])
       ++ flat_map collectBoxed (child_list node).
Proof.
  split.
  - now rewrite collect_preorder, collectBoxed_filter.
  - rewrite collectBoxed_filter.
    assert (Hkids : forall l,
               filter has_box (flat_map preorder l) = flat_map collectBoxed l).
    { intro l. rewrite filter_flat_map. apply flat_map_ext.
      intro c. now rewrite collectBoxed_filter. }
    rewrite <- Hkids.
    destruct node as [i t bb fl ch st cs]; unfold child_list; simpl.
    destruct cs as [cs|]; simpl;
      destruct (has_box (mkNode i t bb fl ch st _)); reflexivity.
Qed.

(** ** Page selection *)

Lemma find_first {A : Type} (f : A -> bool) (l : list A) (q : A) :
  find f l = Some q ->
  exists l1 l2, l = l1 ++ q :: l2 /\ f q = true
                /\ forall r, In r l1 -> f r = false.
Proof.
  induction l as [|a t IH]; simpl; [discriminate|].
  destruct (f a) eqn:Ea.
  - intros [= <-]. exists [], t. repeat split; [assumption|]. contradiction.
  - intro Hq. destruct (IH Hq) as (l1 & l2 & -> & Hfq & Hl1).
    exists (a :: l1), l2. repeat split; [assumption|].
    intros r [<-|Hr]; [assumption | now apply Hl1].
Qed.

(** X7.  A page is selected exactly when the document has pages, and the
    selected page is always one of the pages of the document, whatever the
    stored identifier is. *)
Theorem selectedPage_is_a_page (figmaData : option FigmaFile)
        (selectedPageId : option string) :
  (selectedPage (pages figmaData) selectedPageId = None
   <-> pages figmaData = [])
  /\ forall p, selectedPage (pages figmaData) selectedPageId = Some p ->
               In p (pages figmaData).
Proof.
  generalize (pages figmaData). intro ps. unfold selectedPage.
  destruct selectedPageId as [s|].
  - destruct (find (fun p => String.eqb (id p) s) ps) as [q|] eqn:E.
    + apply find_some in E as [Hq _]. split.
      * split; [discriminate|]. intros ->. contradiction.
      * now intros p [= <-].
    + destruct ps as [|p0 t]; simpl.
      * split; [tauto | discriminate].
      * split; [split; discriminate|]. intros p [= <-]. now left.
  - destruct ps as [|p0 t]; simpl.
    + split; [tauto | discriminate].
    + split; [split; discriminate|]. intros p [= <-]. now left.
Qed.

(** X8.  When a page carries the stored identifier, the selected page is the
    first page with that identifier; when no page carries it, the selection
    falls back to the first page of the document. *)
Theorem selectedPage_by_identifier (ps : list Node) (s : string) :
  (forall p, In p ps -> id p = s ->
     exists q l1 l2,
       selectedPage ps (Some s) = Some q /\ id q = s
       /\ ps = l1 ++ q :: l2 /\ forall r, In r l1 -> id r <> s)
  /\ ((forall p, In p ps -> id p <> s) ->
      selectedPage ps (Some s) = hd_error ps).
Proof.
  unfold selectedPage. split.
  - intros p Hp Hid.
    destruct (find (fun p => String.eqb (id p) s) ps) as [q|] eqn:E.
    + destruct (find_first _ _ _ E) as (l1 & l2 & Hps & Hq & Hl1).
      exists q, l1, l2. split; [reflexivity|].
      split; [now apply String.eqb_eq|]. split; [exact Hps|].
      intros r Hr. apply String.eqb_neq. now apply Hl1.
    + exfalso. pose proof (find_none _ _ E p Hp) as Hf. simpl in Hf.
      apply String.eqb_neq in Hf. contradiction.
  - intro Hnone.
    destruct (find (fun p => String.eqb (id p) s) ps) as [q|] eqn:E;
      [|reflexivity].
    apply find_some in E as [Hq Hid]. apply String.eqb_eq in Hid.
    exfalso. exact (Hnone q Hq Hid).
Qed.

Lemma selectedPage_by_identifier_witness :
  selectedPage [wide_page; bare_page; tiny_page] (Some "0:2") = Some bare_page
  /\ selectedPage [wide_page; bare_page; tiny_page] (Some "9:9") = Some wide_page.
Proof.
  destruct (selectedPage_by_identifier [wide_page; bare_page; tiny_page] "9:9")
    as [_ Hstale].
  split; [reflexivity|].
  apply Hstale. intros p Hp. simpl in Hp.
  repeat (destruct Hp as [<-|Hp]; [discriminate|]). contradiction.
Defined.

(** X9.  The effect that stores the identifier of the first page never
    changes which page is shown: from any stored identifier other than the
    empty string the selected page is the same before and after it.  Running
    the effect again changes nothing, and from no selection it stores the
    identifier of the page that is shown. *)
Theorem selectFirstPage_keeps_page (ps : list Node)
        (selectedPageId : option string) :
  selectedPageId <> Some "" ->
  selectedPage ps (selectFirstPage ps selectedPageId)
  = selectedPage ps selectedPageId
  /\ selectFirstPage ps (selectFirstPage ps selectedPageId)
     = selectFirstPage ps selectedPageId
  /\ (ps <> [] -> selectedPageId = None ->
      exists p, selectedPage ps selectedPageId = Some p
                /\ selectFirstPage ps selectedPageId = Some (id p)).
Proof.
  intro Hne. destruct ps as [|p0 t]; simpl.
  - repeat split; congruence.
  - destruct (no_selection selectedPageId) eqn:E.
    + assert (selectedPageId = None) as ->.
      { destruct selectedPageId as [[|c r]|]; simpl in E; congruence. }
      unfold selectedPage. simpl. rewrite String.eqb_refl.
      split; [reflexivity|].
      split; [now destruct (id p0)|].
      intros _ _. exists p0. split; reflexivity.
    + rewrite E. split; [reflexivity|]. split; [reflexivity|].
      intros _ ->. discriminate.
Qed.

Lemma selectFirstPage_keeps_page_witness :
  selectedPage [wide_page; bare_page] (selectFirstPage [wide_page; bare_page] None)
  = selectedPage [wide_page; bare_page] None.
Proof.
  destruct (selectFirstPage_keeps_page [wide_page; bare_page] None)
    as (Hsame & _); [discriminate | exact Hsame].
Defined.

(** ** File names *)

Lemma replace_unsafe_safe (s : jsstring) :
  forallb safe_unit (replace_unsafe s) = true.
Proof.
  induction s as [|c t IH]; simpl; [reflexivity|].
  rewrite IH, andb_true_r.
  destruct (safe_unit c) eqn:E; [exact E | reflexivity].
Qed.

Lemma replace_unsafe_fixed (s : jsstring) :
  forallb safe_unit s = true -> replace_unsafe s = s.
Proof.
  induction s as [|c t IH]; simpl; [reflexivity|].
  rewrite andb_true_iff. intros [Hc Ht]. now rewrite Hc, (IH Ht).
Qed.

(** X10.  The replacement of the file-name pattern keeps the length of the
    name, leaves only letters, digits, [_], [-] and [.], changes a code unit
    only into [_] and only when it is not one of those, and applied twice it
    gives what it gives applied once. *)
Theorem replace_unsafe_sanitizes (name : jsstring) :
  List.length (replace_unsafe name) = List.length name
  /\ forallb safe_unit (replace_unsafe name) = true
  /\ replace_unsafe (replace_unsafe name) = replace_unsafe name
  /\ (forallb safe_unit name = true -> replace_unsafe name = name)
  /\ forall i c, nth_error name i = Some c ->
       nth_error (replace_unsafe name) i
       = Some (if safe_unit c then c else 95%N).
Proof.
  split; [apply length_map|].
  split; [apply replace_unsafe_safe|].
  split; [apply replace_unsafe_fixed, replace_unsafe_safe|].
  split; [apply replace_unsafe_fixed|].
  intros i c Hc. unfold replace_unsafe.
  now rewrite nth_error_map, Hc.
Qed.

Lemma replace_unsafe_sanitizes_witness :
  replace_unsafe (lit "Home-v2.final") = lit "Home-v2.final".
Proof.
  destruct (replace_unsafe_sanitizes (lit "Home-v2.final"))
    as (_ & _ & _ & Hfixed & _).
  apply Hfixed. reflexivity.
Defined.

Lemma safePageName_cases (name : option jsstring) :
  (exists c t, name = Some (c :: t)
               /\ safePageName name = replace_unsafe (c :: t))
  \/ ((name = None \/ name = Some [])
      /\ safePageName name = lit "generated-page").
Proof.
  destruct name as [[|c t]|].
  - right. split; [now right | reflexivity].
  - left. exists c, t. split; reflexivity.
  - right. split; [now left | reflexivity].
Qed.

Lemma safePageName_safe (name : option jsstring) :
  forallb safe_unit (safePageName name) = true /\ safePageName name <> [].
Proof.
  destruct (safePageName_cases name) as [(c & t & -> & ->)|[_ ->]].
  - split; [apply replace_unsafe_safe | discriminate].
  - split; [reflexivity | discriminate].
Qed.

(** X11.  The name of the downloaded file is one safe path component,
    whatever the page is called: every code unit of it is a letter, a digit,
    [_], [-] or [.], so it holds no slash, no backslash and no colon; its
    stem is never empty; and it is the name of the page when that name is
    present, not empty and already safe. *)
Theorem downloadFilename_is_safe (name : option jsstring) :
  (forall c, In c (downloadFilename name) -> safe_unit c = true)
  /\ ~ In 47%N (downloadFilename name)
  /\ ~ In 92%N (downloadFilename name)
  /\ ~ In 58%N (downloadFilename name)
  /\ (exists c stem, downloadFilename name = (c :: stem) ++ lit ".html")
  /\ (List.length (downloadFilename name) >= 6)%nat
  /\ (forall c t, name = Some (c :: t) -> forallb safe_unit (c :: t) = true ->
                  downloadFilename name = (c :: t) ++ lit ".html").
Proof.
  destruct (safePageName_safe name) as [Hsafe Hne].
  assert (Hall : forall c, In c (downloadFilename name) -> safe_unit c = true).
  { intros c Hc. unfold downloadFilename in Hc.
    apply in_app_or in Hc as [Hc|Hc].
    - rewrite forallb_forall in Hsafe. now apply Hsafe.
    - simpl in Hc.
      repeat (destruct Hc as [<-|Hc]; [reflexivity|]). contradiction. }
  split; [exact Hall|].
  split; [intro Hc; apply Hall in Hc; discriminate|].
  split; [intro Hc; apply Hall in Hc; discriminate|].
  split; [intro Hc; apply Hall in Hc; discriminate|].
  unfold downloadFilename.
  destruct (safePageName name) as [|c stem] eqn:E; [congruence|].
  split; [now exists c, stem|].
  split; [rewrite length_app; simpl; lia|].
  intros c' t' -> Hok.
  change (safePageName (Some (c' :: t')))
    with (replace_unsafe (c' :: t')) in E.
  rewrite (replace_unsafe_fixed (c' :: t') Hok) in E.
  now rewrite <- E.
Qed.

Lemma downloadFilename_is_safe_witness :
  downloadFilename (Some (lit "Home")) = lit "Home.html".
Proof.
  destruct (downloadFilename_is_safe (Some (lit "Home")))
    as (_ & _ & _ & _ & _ & _ & Hkeep).
  apply (Hkeep 72%N (lit "ome")); reflexivity.
Defined.

(** ** The generation route *)

(** X12.  The route goes on to generate exactly when the body is present,
    its name and its id are not empty and the model client is initialised,
    and the file it then writes has the very name the client downloads for
    the same page; a body that fails the first guard is answered 400 whether
    or not the model client is initialised. *)
Theorem generateHtmlRoute_guards (body : option PageData) (genAI : bool) :
  (forall fn,
     generateHtmlRoute body genAI = Generate fn
     <-> exists page name,
           body = Some page /\ page_name page = Some name /\ name <> []
           /\ truthy (page_id page) = true /\ genAI = true
           /\ fn = downloadFilename (Some name))
  /\ (generateHtmlRoute body genAI = Status400
      <-> generateHtmlRoute body (negb genAI) = Status400)
  /\ (generateHtmlRoute body genAI = Status500 -> genAI = false).
Proof.
  unfold generateHtmlRoute.
  destruct body as [[nm pid]|]; simpl.
  2:{ split; [|split; [tauto | discriminate]].
      intro fn. split; [discriminate|].
      intros (page & name & Hb & _). discriminate. }
  destruct nm as [[|c t]|]; simpl.
  - split; [|split; [tauto | discriminate]].
    intro fn. split; [discriminate|].
    intros (page & name & [= <-] & Hn & Hne & _). simpl in Hn.
    injection Hn as <-. congruence.
  - destruct (truthy pid) eqn:Ep; simpl.
    + destruct genAI; simpl.
      * split; [|split; [split; discriminate | discriminate]].
        intro fn. split.
        -- intros [= <-]. exists (mkPage (Some (c :: t)) pid), (c :: t).
           repeat split; try assumption. discriminate.
        -- intros (page & name & [= <-] & Hn & _ & _ & _ & ->).
           simpl in Hn. injection Hn as <-. reflexivity.
      * split; [|split; [split; discriminate | reflexivity]].
        intro fn. split; [discriminate|].
        intros (page & name & _ & _ & _ & _ & Hg & _). discriminate.
    + split; [|split; [tauto | discriminate]].
      intro fn. split; [discriminate|].
      intros (page & name & [= <-] & _ & _ & Hid & _). simpl in Hid. congruence.
  - split; [|split; [tauto | discriminate]].
    intro fn. split; [discriminate|].
    intros (page & name & [= <-] & Hn & _). simpl in Hn. discriminate.
Qed.

Lemma generateHtmlRoute_guards_witness :
  generateHtmlRoute (Some (mkPage (Some (lit "My Page")) (Some (lit "0:1")))) true
  = Generate (lit "My_Page.html").
Proof.
  destruct (generateHtmlRoute_guards
              (Some (mkPage (Some (lit "My Page")) (Some (lit "0:1")))) true)
    as (Hgen & _).
  apply (proj2 (Hgen (lit "My_Page.html"))).
  exists (mkPage (Some (lit "My Page")) (Some (lit "0:1"))), (lit "My Page").
  repeat split. discriminate.
Defined.

(** ** Generation and download *)

Lemma startsWith_app (p s : jsstring) : startsWith (p ++ s) p = true.
Proof.
  induction p as [|c t IH]; simpl; [now destruct s|].
  now rewrite N.eqb_refl, IH.
Qed.

Lemma download_decision (html : jsstring) (sv : option jsstring)
      (er : option jsstring) (g : bool) (name : option jsstring) :
  handleDownloadHtml (mkView html sv er g) name
  = if is_empty html || startsWith html redPrefix
       || startsWith html notProvidedPrefix
    then AlertNoContent
    else SaveFile (downloadFilename name) html.
Proof. reflexivity. Qed.

(** X13.  After a generation that failed, by an exception or by a response
    that is not ok, the handler is no longer generating, an error message
    that starts with "Failed to generate HTML: " is set, the server message
    is cleared, and the placeholder it leaves as markup can not be
    downloaded: the download handler alerts and the button is not drawn. *)
Theorem failed_generation_blocks_download (x : Exchange) (st : ViewState)
        (name : option jsstring) :
  exchange_failed x = true ->
  let st' := handleGenerateHtml true x st in
  handleDownloadHtml st' name = AlertNoContent
  /\ downloadButtonShown st' = false
  /\ isGenerating st' = false
  /\ serverMessage st' = Some []
  /\ exists msg, error st' = Some (lit "Failed to generate HTML: " ++ msg).
Proof.
  intro Hfail.
  assert (Hst : exists msg, handleGenerateHtml true x st = generationFailed msg).
  { destruct x as [msg|[|] status body]; simpl in Hfail;
      [|discriminate|]; eexists; reflexivity. }
  destruct Hst as [msg Hst]. simpl. rewrite Hst.
  repeat split. exists msg. reflexivity.
Qed.

Lemma failed_generation_blocks_download_witness :
  handleDownloadHtml
    (handleGenerateHtml true
       (Responded false (lit "500") (mkJson None None (Some (lit "<html/>"))))
       (mkView (lit "<html>old</html>") None None false))
    (Some (lit "Home"))
  = AlertNoContent.
Proof.
  destruct (failed_generation_blocks_download
              (Responded false (lit "500")
                         (mkJson None None (Some (lit "<html/>"))))
              (mkView (lit "<html>old</html>") None None false)
              (Some (lit "Home")) eq_refl)
    as (Halert & _).
  exact Halert.
Defined.

(** X14.  The download button is drawn exactly when a click on it saves a
    file, and the file saved holds the generated markup as it is, under the
    download name of the selected page. *)
Theorem download_button_agrees (st : ViewState) (name : option jsstring) :
  (downloadButtonShown st = true
   <-> handleDownloadHtml st name
       = SaveFile (downloadFilename name) (generatedHtml st))
  /\ (downloadButtonShown st = false
      <-> handleDownloadHtml st name = AlertNoContent).
Proof.
  unfold downloadButtonShown, handleDownloadHtml.
  destruct (is_empty (generatedHtml st)),
           (startsWith (generatedHtml st) redPrefix),
           (startsWith (generatedHtml st) notProvidedPrefix);
    simpl; repeat split; try discriminate; reflexivity.
Qed.

(** X15.  After a response that is ok and carries markup [h], nothing is
    reported as an error, the server message is the one of the response, and
    a download saves exactly [h] under the download name, provided [h] is
    not empty and starts with neither placeholder prefix; otherwise, even
    though the generation succeeded, the download handler alerts. *)
Theorem successful_generation_download (status : jsstring) (body : ResultJson)
        (st : ViewState) (name : option jsstring) (h : jsstring) :
  htmlContent body = Some h ->
  let st' := handleGenerateHtml true (Responded true status body) st in
  error st' = None
  /\ isGenerating st' = false
  /\ serverMessage st' = message body
  /\ (h <> [] -> startsWith h redPrefix = false ->
      startsWith h notProvidedPrefix = false ->
      handleDownloadHtml st' name = SaveFile (downloadFilename name) h)
  /\ (h = [] \/ startsWith h redPrefix = true
      \/ startsWith h notProvidedPrefix = true ->
      handleDownloadHtml st' name = AlertNoContent).
Proof.
  intros Hh st'. subst st'. unfold handleGenerateHtml. simpl. rewrite Hh.
  split; [now destruct h|]. split; [now destruct h|]. split; [now destruct h|].
  destruct h as [|c t].
  - split; [congruence|]. intros _. reflexivity.
  - rewrite download_decision. simpl is_empty. split.
    + intros _ Hr Hn. now rewrite Hr, Hn.
    + intros [Hnil|[Hr|Hn]]; [discriminate| |].
      * now rewrite Hr.
      * rewrite Hn. now rewrite orb_true_r.
Qed.

Lemma successful_generation_download_witness :
  handleDownloadHtml
    (handleGenerateHtml true
       (Responded true (lit "200")
                  (mkJson None (Some (lit "saved")) (Some (lit "<html></html>"))))
       (mkView [] None None false))
    (Some (lit "Home page"))
  = SaveFile (lit "Home_page.html") (lit "<html></html>").
Proof.
  destruct (successful_generation_download (lit "200")
              (mkJson None (Some (lit "saved")) (Some (lit "<html></html>")))
              (mkView [] None None false) (Some (lit "Home page"))
              (lit "<html></html>") eq_refl)
    as (_ & _ & _ & Hsave & _).
  apply Hsave; [discriminate | reflexivity | reflexivity].
Defined.

(** ** The two versions of the scale *)

(** X16.  For a page of positive width and height the scale of the first
    version of the viewer, the least of the two ratios and 1, is the scale
    the current version computes with its test and its two-argument
    minimum. *)
Theorem legacyScale_agrees (W H pw ph : Q) :
  0 < pw -> 0 < ph -> legacyScale W H pw ph == newScale W H pw ph.
Proof.
  intros Hpw Hph. unfold legacyScale.
  pose proof (newScale_le_one W H pw ph Hpw Hph) as Hle.
  unfold newScale in *.
  destruct (Qgtb pw W) eqn:Ew; simpl in *.
  - now apply Q.min_l.
  - destruct (Qgtb ph H) eqn:Eh; [now apply Q.min_l|].
    apply Qgtb_false in Ew, Eh. apply Q.min_r.
    apply Q.min_glb; apply Qle_shift_div_l; try assumption; lra.
Qed.

Lemma legacyScale_agrees_witness :
  legacyScale 900 600 1800 600 == newScale 900 600 1800 600.
Proof. apply legacyScale_agrees; reflexivity. Defined.

(** ** Text under the envelope *)

(** X17.  Under the envelope of a tree whose boxed nodes have no negative
    size, a TEXT node is rendered to one text block whose family, colour and
    characters do not depend on the scale and whose font size is the resolved
    size times the scale: never above the resolved size when that size is
    not negative, and above zero when it is. *)
Theorem text_is_never_enlarged (W H : Q) (root n : Node) :
  0 < W -> 0 < H -> sizes_nonneg root = true -> type n = "TEXT" ->
  exists env l t w h fs,
    computeEnvelope W H (Some root) = Ok env
    /\ project n env
       = Ok [TextBlock l t w h "#222" fs (fst (resolveTextStyle (style n)))
                       (characters n)]
    /\ fs == snd (resolveTextStyle (style n)) * scale env
    /\ (0 <= snd (resolveTextStyle (style n)) ->
        0 <= fs /\ fs <= snd (resolveTextStyle (style n)))
    /\ (0 < snd (resolveTextStyle (style n)) -> 0 < fs).
Proof.
  intros HW HH Hnn Hty. rewrite computeEnvelope_page.
  assert (Hsc : forall env,
             env = match page_boxes root with
                   | [] => emptyEnvelope W H
                   | b0 :: bs => fitEnvelope W H b0 bs
                   end -> 0 < scale env /\ scale env <= 1).
  { intros env ->. pose proof (page_boxes_nonneg root Hnn) as Hall.
    destruct (page_boxes root) as [|b0 bs]; simpl; [split; lra|].
    assert (H0 : box_nonneg b0 = true) by (apply Hall; now left).
    pose proof (pageWidth_pos b0 bs H0). pose proof (pageHeight_pos b0 bs H0).
    split; [now apply newScale_pos | now apply newScale_le_one]. }
  eexists. destruct (Hsc _ eq_refl) as [Hpos Hle].
  unfold project. rewrite FigmaNode_eq, Hty. simpl String.eqb. cbv iota.
  unfold textDiv. do 5 eexists. split; [reflexivity|].
  split; [reflexivity|]. split; [reflexivity|].
  set (s := scale _) in *. set (f := snd _).
  split.
  - intro Hf. split; [apply Qmult_le_0_compat; lra|].
    setoid_replace f with (f * 1) at 2 by ring.
    rewrite !(Qmult_comm f). apply Qmult_le_compat_r; assumption.
  - intro Hf. apply Qmult_lt_0_compat; assumption.
Qed.

Lemma text_is_never_enlarged_witness :
  exists env l t w h fs,
    computeEnvelope 900 600 (Some wide_page) = Ok env
    /\ project title_text env
       = Ok [TextBlock l t w h "#222" fs "Inter" (Some "Hello")]
    /\ 0 < fs /\ fs <= 12.
Proof.
  destruct (text_is_never_enlarged 900 600 wide_page title_text)
    as (env & l & t & w & h & fs & Henv & Hp & _ & Hle & Hpos);
    try reflexivity.
  exists env, l, t, w, h, fs. split; [exact Henv|]. split; [exact Hp|].
  split; [apply Hpos; reflexivity|].
  apply Hle. discriminate.
Defined.

(** ** What the render area shows *)



